(** * DriftThreads: the MAL XML to JSON converter (AniMehList/convert/converter.py)

    A shallow embedding of [converter.py] and the properties of its
    field-mapping layer: season inference from titles, status and kind
    mapping, episode derivation, notes, tags, and the batch loop.

    Modelling conventions.
    - A Python [str] is a [string]; its characters are the code points below
      256, and the character classes ([str.isspace], [\w], [\d], [str.lower])
      are Python's on that range.
    - Python [int] is [Z]; [None] is [None] of an option type.
    - [re] patterns are values of [regex], run by a backtracking matcher with
      Python's priorities (leftmost start, ordered alternatives, greedy
      repetition).
    - An [ET.Element] is a tree of tag, text and children.
    - The file system touched by the orchestrator is a finite map from paths
      to contents together with a set of directories. *)

From Stdlib Require Import ZArith NArith Ascii String List Bool Lia.
From stdpp Require Import base option list gmap strings.

Open Scope Z_scope.

#[local] Arguments String.append !_ _ / : simpl nomatch.

(** ** Characters *)

Module Char.

Definition code (c : ascii) : N := N_of_ascii c.

(** [str.isspace] on one character: TAB..CR, FS..US, space, NEL, NBSP. *)
Definition is_space (c : ascii) : bool :=
  let n := code c in
  ((9 <=? n) && (n <=? 13) || (28 <=? n) && (n <=? 32)
   || (n =? 133) || (n =? 160))%N.

(** The class [[0-9]]; below 256 it is also [\d] and the digits of [int]. *)
Definition is_digit (c : ascii) : bool :=
  let n := code c in ((48 <=? n) && (n <=? 57))%N.

Definition digit_val (c : ascii) : Z := Z.of_N (code c) - 48.

Definition is_upper (c : ascii) : bool :=
  let n := code c in
  ((65 <=? n) && (n <=? 90)
   || (192 <=? n) && (n <=? 222) && negb (n =? 215))%N.

(** [\w]: alphanumeric (alphabetic, decimal, digit or numeric) or [_]. *)
Definition is_word (c : ascii) : bool :=
  let n := code c in
  ((48 <=? n) && (n <=? 57) || (65 <=? n) && (n <=? 90)
   || (97 <=? n) && (n <=? 122) || (n =? 95)
   || (n =? 170) || (n =? 178) || (n =? 179) || (n =? 181)
   || (n =? 185) || (n =? 186) || (188 <=? n) && (n <=? 190)
   || (192 <=? n) && (n <=? 214) || (216 <=? n) && (n <=? 246)
   || (248 <=? n) && (n <=? 255))%N.

Definition lower (c : ascii) : ascii :=
  if is_upper c then ascii_of_N (code c + 32) else c.

Definition eqb (a b : ascii) : bool := Ascii.eqb a b.

End Char.

(** ** Strings: the [str] methods the converter calls *)

Module Str.

Fixpoint lower (s : string) : string :=
  match s with
  | EmptyString => EmptyString
  | String c s' => String (Char.lower c) (lower s')
  end.

Fixpoint lstrip (s : string) : string :=
  match s with
  | EmptyString => EmptyString
  | String c s' => if Char.is_space c then lstrip s' else s
  end.

Fixpoint rstrip (s : string) : string :=
  match s with
  | EmptyString => EmptyString
  | String c s' =>
      match rstrip s' with
      | EmptyString => if Char.is_space c then EmptyString else String c EmptyString
      | r => String c r
      end
  end.

(** [s.strip()] *)
Definition strip (s : string) : string := rstrip (lstrip s).

(** [s.split(sep)] for a one-character separator: the piece before the
    first separator, and the pieces after it. *)
Fixpoint split_at (sep : ascii) (s : string) : string * list string :=
  match s with
  | EmptyString => (EmptyString, [])
  | String c s' =>
      let '(p, ps) := split_at sep s' in
      if Char.eqb c sep then (EmptyString, p :: ps) else (String c p, ps)
  end.

Definition split (sep : ascii) (s : string) : list string :=
  let '(p, ps) := split_at sep s in p :: ps.

(** [sep.join(parts)] *)
Fixpoint join (sep : string) (parts : list string) : string :=
  match parts with
  | [] => EmptyString
  | [p] => p
  | p :: ps => p +:+ sep +:+ join sep ps
  end.

Definition is_empty (s : string) : bool :=
  match s with EmptyString => true | _ => false end.

Fixpoint all (p : ascii -> bool) (s : string) : bool :=
  match s with
  | EmptyString => true
  | String c s' => p c && all p s'
  end.

Fixpoint mem (c : ascii) (s : string) : bool :=
  match s with
  | EmptyString => false
  | String d s' => Char.eqb d c || mem c s'
  end.

Definition first (s : string) : option ascii :=
  match s with EmptyString => None | String c _ => Some c end.

Fixpoint last (s : string) : option ascii :=
  match s with
  | EmptyString => None
  | String c EmptyString => Some c
  | String _ s' => last s'
  end.

Fixpoint take (n : nat) (s : string) : string :=
  match n, s with
  | S n', String c s' => String c (take n' s')
  | _, _ => EmptyString
  end.

(** [sub in s] *)
Definition contains (sub s : string) : Prop :=
  exists a b, s = a +:+ sub +:+ b.

(** The digits of [int(...)] in base 10: a digit, then digits each
    optionally preceded by one underscore. [us] tells that the previous
    character was an underscore. *)
Fixpoint digits (acc : Z) (us : bool) (s : string) : option Z :=
  match s with
  | EmptyString => if us then None else Some acc
  | String c s' =>
      if Char.is_digit c then digits (10 * acc + Char.digit_val c) false s'
      else if Char.eqb c "_" && negb us then digits acc true s'
      else None
  end.

Definition unsigned (s : string) : option Z :=
  match s with
  | String c s' =>
      if Char.is_digit c then digits (Char.digit_val c) false s' else None
  | EmptyString => None
  end.

(** [int(s)]: surrounding whitespace, an optional sign, the digits.
    [None] stands for the [ValueError]. The interpreter's configurable limit
    on the number of digits ([sys.set_int_max_str_digits]) is left out. *)
Definition to_int (s : string) : option Z :=
  let t := strip s in
  match t with
  | String c t' =>
      if Char.eqb c "+" then unsigned t'
      else if Char.eqb c "-" then Z.opp <$> unsigned t'
      else unsigned t
  | EmptyString => None
  end.

(** A piece without the separator. *)
Definition sep_free (sep : ascii) (p : string) : Prop := mem sep p = false.

(** A piece is trimmed: neither its first nor its last character is
    whitespace. *)
Definition trimmed (t : string) : Prop :=
  (forall c, first t = Some c -> Char.is_space c = false) /\
  (forall c, last t = Some c -> Char.is_space c = false).

End Str.

(** ** Regular expressions: the fragment of [re] the converter uses *)

Module Re.

(** Character sets. *)
Inductive cset :=
| Digit09    (* [0-9] *)
| Decimal    (* \d *)
| Space.     (* \s *)

Definition in_cset (cs : cset) (c : ascii) : bool :=
  match cs with
  | Digit09 | Decimal => Char.is_digit c
  | Space => Char.is_space c
  end.

Inductive regex :=
| Eps
| Lit (c : ascii)
| Set_ (cs : cset)
| Seq (r1 r2 : regex)
| Alt (r1 r2 : regex)
| Opt (r : regex)                    (* (?:r)?  *)
| Rep (cs : cset) (lo hi : nat)      (* cs{lo,hi} *)
| Star (cs : cset)                   (* cs* *)
| Plus (cs : cset)                   (* cs+ *)
| Group (r : regex)                  (* ( r ), capture group 1 *)
| WordB                              (* \b *)
| EndA.                              (* $ *)

Fixpoint lits (s : string) : regex :=
  match s with
  | EmptyString => Eps
  | String c s' => Seq (Lit c) (lits s')
  end.

Definition cat (rs : list regex) : regex := fold_right Seq Eps rs.

Fixpoint alts (r : regex) (rs : list regex) : regex :=
  match rs with
  | [] => r
  | r' :: rs' => Alt r (alts r' rs')
  end.

(** A literal under [re.IGNORECASE] ([ic]) or not. *)
Definition lit_eq (ic : bool) (pat c : ascii) : bool :=
  if ic then Char.eqb (Char.lower pat) (Char.lower c) else Char.eqb pat c.

Definition word_opt (c : option ascii) : bool :=
  match c with Some c => Char.is_word c | None => false end.

(** [\b] between the previous character and the rest of the input. *)
Definition at_boundary (prev : option ascii) (s : string) : bool :=
  xorb (word_opt prev) (word_opt (Str.first s)).

(** [$] without MULTILINE: the end, or just before a final newline. *)
Definition at_end (s : string) : bool :=
  match s with
  | EmptyString => true
  | String c EmptyString => Char.eqb c "010"
  | _ => false
  end.

Section Matcher.
(** The matcher is written with a continuation [k] for the rest of the
    pattern; a failure of [k] makes the current construct try its next
    choice. The state is the character before the position, the rest of
    the input, and the text of group 1 when it is set. *)
Context {A : Type}.
Definition cont := option ascii -> string -> option string -> option A.

(** Greedy [p*]: as many characters as possible first. *)
Fixpoint star (p : ascii -> bool) (prev : option ascii) (s : string)
    (k : option ascii -> string -> option A) : option A :=
  match s with
  | String c s' =>
      if p c then
        match star p (Some c) s' k with
        | Some a => Some a
        | None => k prev s
        end
      else k prev s
  | EmptyString => k prev s
  end.

(** Greedy [p{lo,hi}]. *)
Fixpoint rep (p : ascii -> bool) (lo hi : nat) (prev : option ascii)
    (s : string) (k : option ascii -> string -> option A) : option A :=
  let stop := match lo with O => k prev s | S _ => None end in
  match hi with
  | O => stop
  | S hi' =>
      match s with
      | String c s' =>
          if p c then
            match rep p (Nat.pred lo) hi' (Some c) s' k with
            | Some a => Some a
            | None => stop
            end
          else stop
      | EmptyString => stop
      end
  end.

Fixpoint run (ic : bool) (r : regex) (prev : option ascii) (s : string)
    (cap : option string) (k : cont) : option A :=
  match r with
  | Eps => k prev s cap
  | Lit c =>
      match s with
      | String d s' => if lit_eq ic c d then k (Some d) s' cap else None
      | EmptyString => None
      end
  | Set_ cs =>
      match s with
      | String d s' => if in_cset cs d then k (Some d) s' cap else None
      | EmptyString => None
      end
  | Seq r1 r2 =>
      run ic r1 prev s cap (fun prev' s' cap' => run ic r2 prev' s' cap' k)
  | Alt r1 r2 =>
      match run ic r1 prev s cap k with
      | Some a => Some a
      | None => run ic r2 prev s cap k
      end
  | Opt r1 =>
      match run ic r1 prev s cap k with
      | Some a => Some a
      | None => k prev s cap
      end
  | Rep cs lo hi => rep (in_cset cs) lo hi prev s (fun p' s' => k p' s' cap)
  | Star cs => star (in_cset cs) prev s (fun p' s' => k p' s' cap)
  | Plus cs =>
      match s with
      | String d s' =>
          if in_cset cs d
          then star (in_cset cs) (Some d) s' (fun p' s' => k p' s' cap)
          else None
      | EmptyString => None
      end
  | Group r1 =>
      run ic r1 prev s cap
        (fun prev' s' _ =>
           k prev' s' (Some (Str.take (String.length s - String.length s') s)))
  | WordB => if at_boundary prev s then k prev s cap else None
  | EndA => if at_end s then k prev s cap else None
  end.
End Matcher.

(** A compiled pattern: [re.compile(r, flags)]. *)
Record pattern := { pat_re : regex; pat_ic : bool }.

(** A match object, reduced to what the converter reads: [m.group(1)],
    [None] when the group took no part in the match. *)
Definition match_ := option string.

Definition match_here (p : pattern) (prev : option ascii) (s : string)
    : option match_ :=
  run (pat_ic p) (pat_re p) prev s None (fun _ _ cap => Some cap).

(** [p.search(s)]: the match at the leftmost start position that has one. *)
Fixpoint search_from (p : pattern) (prev : option ascii) (s : string)
    : option match_ :=
  match match_here p prev s with
  | Some m => Some m
  | None =>
      match s with
      | String c s' => search_from p (Some c) s'
      | EmptyString => None
      end
  end.

Definition search (p : pattern) (s : string) : option match_ :=
  search_from p None s.

(** What a pattern may consume and capture, stated without the matcher's
    control flow. *)

(** [consumes ic r w]: [w] is a text that [r] may consume. *)
Fixpoint consumes (ic : bool) (r : regex) (w : string) : Prop :=
  match r with
  | Eps | WordB | EndA => w = EmptyString
  | Lit c => exists d, w = String d EmptyString /\ lit_eq ic c d = true
  | Set_ cs => exists d, w = String d EmptyString /\ in_cset cs d = true
  | Seq r1 r2 =>
      exists w1 w2, w = w1 +:+ w2 /\ consumes ic r1 w1 /\ consumes ic r2 w2
  | Alt r1 r2 => consumes ic r1 w \/ consumes ic r2 w
  | Opt r1 => w = EmptyString \/ consumes ic r1 w
  | Rep cs lo hi =>
      Str.all (in_cset cs) w = true /\
      (lo <= String.length w)%nat /\ (String.length w <= hi)%nat
  | Star cs => Str.all (in_cset cs) w = true
  | Plus cs => Str.all (in_cset cs) w = true /\ (1 <= String.length w)%nat
  | Group r1 => consumes ic r1 w
  end.

(** [captured ic r g]: [g] is a text that a group of [r] may hold. *)
Fixpoint captured (ic : bool) (r : regex) (g : string) : Prop :=
  match r with
  | Group r1 => consumes ic r1 g
  | Seq r1 r2 | Alt r1 r2 => captured ic r1 g \/ captured ic r2 g
  | Opt r1 => captured ic r1 g
  | _ => False
  end.

End Re.

(** ** XML elements, as [xml.etree.ElementTree] presents them *)

#[local] Unset Elimination Schemes.
Inductive Element :=
| Elem (tag : string) (etext : option string) (children : list Element).
#[local] Set Elimination Schemes.

Definition el_tag (e : Element) : string := let 'Elem t _ _ := e in t.
Definition el_text (e : Element) : option string := let 'Elem _ t _ := e in t.
Definition el_children (e : Element) : list Element := let 'Elem _ _ c := e in c.

(** [el.find(tag)]: the first child with that tag. *)
Definition find (el : Element) (tag : string) : option Element :=
  List.find (fun c => String.eqb (el_tag c) tag) (el_children el).

(** [el.findtext(tag)]: the text of that child, [""] when it has none. *)
Definition findtext (el : Element) (tag : string) : option string :=
  match find el tag with
  | Some c => Some (default EmptyString (el_text c))
  | None => None
  end.

(** [el.findall(tag)]: the children with that tag, in document order. *)
Definition findall (el : Element) (tag : string) : list Element :=
  List.filter (fun c => String.eqb (el_tag c) tag) (el_children el).

(** ** The converter *)

Definition ROMAN_MAP : list (string * Z) :=
  [("II", 2); ("III", 3); ("IV", 4); ("V", 5); ("VI", 6);
   ("VII", 7); ("VIII", 8); ("IX", 9); ("X", 10)].

Definition roman_lookup (token : string) : option Z :=
  snd <$> List.find (fun kv => String.eqb (fst kv) token) ROMAN_MAP.

Import Re.

Definition digits12 : regex := Group (Rep Digit09 1 2).

(** [\bS(?:eason)?\s*([0-9]{1,2})\b], IGNORECASE *)
Definition RE_S_OR_SEASON_NUM : pattern :=
  {| pat_re := cat [WordB; Lit "S"; Opt (lits "eason"); Star Space; digits12; WordB];
     pat_ic := true |}.

(** [\b([0-9]{1,2})(?:st|nd|rd|th)\s+Season\b], IGNORECASE *)
Definition RE_ORDINAL_SEASON : pattern :=
  {| pat_re := cat [WordB; digits12;
                    alts (lits "st") [lits "nd"; lits "rd"; lits "th"];
                    Plus Space; lits "Season"; WordB];
     pat_ic := true |}.

(** [\bSeason\s*([0-9]{1,2})\b], IGNORECASE *)
Definition RE_SEASON_NUM : pattern :=
  {| pat_re := cat [WordB; lits "Season"; Star Space; digits12; WordB];
     pat_ic := true |}.

(** [\bPart\s*([0-9]{1,2})\b], IGNORECASE *)
Definition RE_PART_NUM : pattern :=
  {| pat_re := cat [WordB; lits "Part"; Star Space; digits12; WordB];
     pat_ic := true |}.

(** [\b(II|III|IV|V|VI|VII|VIII|IX|X)\b] *)
Definition RE_ROMAN : pattern :=
  {| pat_re := cat [WordB;
                    Group (alts (lits "II")
                             [lits "III"; lits "IV"; lits "V"; lits "VI";
                              lits "VII"; lits "VIII"; lits "IX"; lits "X"]);
                    WordB];
     pat_ic := false |}.

(** [(\d{1,2})\s*$] *)
Definition RE_TRAILING_NUM : pattern :=
  {| pat_re := cat [Group (Rep Decimal 1 2); Star Space; EndA];
     pat_ic := false |}.

Definition safe_int (value : option string) (default : Z) : Z :=
  match value with
  | None => default
  | Some v =>
      match Str.to_int v with
      | Some n => n
      | None => default
      end
  end.

Definition text (el : Element) (tag : string) : option string :=
  match findtext el tag with
  | None => None
  | Some t =>
      let t := Str.strip t in
      if Str.is_empty t then None else Some t
  end.

(** [int(m.group(1))] inside [try]: [None] when it raises ([group(1)] is
    [None], or the text is no integer). *)
Definition group_int (m : match_) : option Z :=
  match m with
  | Some g => Str.to_int g
  | None => None
  end.

(** One of the numbered rules of [infer_season]: search, then convert the
    group; [None] when the rule falls through to the next one. *)
Definition num_rule (p : pattern) (series_title : string) : option Z :=
  match search p series_title with
  | Some m => group_int m
  | None => None
  end.

Definition roman_rule (series_title : string) : option Z :=
  match search RE_ROMAN series_title with
  | Some (Some token) => roman_lookup token
  | _ => None
  end.

Definition trailing_rule (series_title : string) : option Z :=
  match search RE_TRAILING_NUM series_title with
  | Some m =>
      match group_int m with
      | Some n => if (1 <=? n) && (n <=? 10) then Some n else None
      | None => None
      end
  | None => None
  end.

Definition infer_season (series_title : string) : option Z :=
  if Str.is_empty series_title then None else
  match num_rule RE_S_OR_SEASON_NUM series_title with
  | Some n => Some n
  | None =>
  match num_rule RE_ORDINAL_SEASON series_title with
  | Some n => Some n
  | None =>
  match num_rule RE_SEASON_NUM series_title with
  | Some n => Some n
  | None =>
  match num_rule RE_PART_NUM series_title with
  | Some n => Some n
  | None =>
  match roman_rule series_title with
  | Some n => Some n
  | None => trailing_rule series_title
  end end end end end.

(** The rules with a number after a keyword: rules 1 to 4. *)
Definition keyword_rules : list pattern :=
  [RE_S_OR_SEASON_NUM; RE_ORDINAL_SEASON; RE_SEASON_NUM; RE_PART_NUM].

(** The text of a digit group: one or two digits. *)
Definition digit_text (g : string) : Prop :=
  Str.all Char.is_digit g = true /\
  (1 <= String.length g)%nat /\ (String.length g <= 2)%nat.

(** A pattern whose only group is [([0-9]{1,2})] or [(\d{1,2})]. *)
Definition digit_group (p : pattern) : Prop :=
  forall g, captured (pat_ic p) (pat_re p) g -> digit_text g.

(** A text that does not end in a digit. *)
Definition no_digit_before (pre : string) : Prop :=
  forall c, Str.last pre = Some c -> Char.is_digit c = false.

(** [s and s.strip().lower() == lit] for an optional string. *)
Definition norm_is (s : option string) (lit : string) : bool :=
  match s with
  | Some v => negb (Str.is_empty v) && String.eqb (Str.lower (Str.strip v)) lit
  | None => false
  end.

Definition map_kind (series_type : option string) : string :=
  if norm_is series_type "movie" then "MOVIE" else "SERIES".

Definition map_status (mal_status : option string) (is_rewatching : bool) : string :=
  if is_rewatching then "REWATCH" else
  match mal_status with
  | None => "PLAN"
  | Some v =>
      if Str.is_empty v then "PLAN" else
      let s := Str.lower (Str.strip v) in
      if String.eqb s "watching" then "WATCHING"
      else if String.eqb s "completed" then "COMPLETED"
      else if String.eqb s "plan to watch" then "PLAN"
      else if String.eqb s "on-hold" then "WAITING"
      else if String.eqb s "dropped" then "PLAN"
      else "PLAN"
  end.

Definition split_tags (raw : option string) : list string :=
  match raw with
  | None => []
  | Some r =>
      if Str.is_empty r then [] else
      let parts := map Str.strip (Str.split "," r) in
      List.filter (fun p => negb (Str.is_empty p)) parts
  end.

(** The target item: the dictionary [build_item] returns, one field per key. *)
Record Item := {
  title : string;
  kind : string;
  status : string;
  season : option Z;
  episode : option Z;
  absolute_episode : option Z;
  notes : option string;
  tags : list string;
  rating : option Z;
  cover_url : option string;
  banner_key : option string;
  image_url : option string;
}.

(** The locals of [build_item] that the properties below speak about. *)
Definition is_rewatching (anime_el : Element) : bool :=
  safe_int (text anime_el "my_rewatching") 0 =? 1.

Definition rewatch_ep (anime_el : Element) : Z :=
  safe_int (text anime_el "my_rewatching_ep") 0.

Definition watched_eps (anime_el : Element) : Z :=
  safe_int (text anime_el "my_watched_episodes") 0.

Definition score (anime_el : Element) : Z :=
  safe_int (text anime_el "my_score") 0.

(** [x in ("TV", "Movie")] *)
Definition is_tv_or_movie (series_type : string) : bool :=
  String.eqb series_type "TV" || String.eqb series_type "Movie".

Definition notes_parts (mal_status series_type : option string) : list string :=
  (if norm_is mal_status "on-hold" then ["MAL: On-Hold"] else [])
  ++ (if norm_is mal_status "dropped" then ["MAL: Dropped"] else [])
  ++ match series_type with
     | Some st =>
         if negb (Str.is_empty st) && negb (is_tv_or_movie st)
         then ["MAL type: " +:+ st] else []
     | None => []
     end.

Definition episode_of (status : string) (rewatch_ep watched_eps : Z) : option Z :=
  if String.eqb status "WATCHING" || String.eqb status "REWATCH" then
    let episode := if String.eqb status "REWATCH" then rewatch_ep else watched_eps in
    if episode =? 0 then None else Some episode
  else None.

Definition build_item (anime_el : Element) (include_dropped infer_season_flag : bool)
    : option Item :=
  let series_title := default EmptyString (text anime_el "series_title") in
  let series_type := text anime_el "series_type" in
  let kind := map_kind series_type in
  let mal_status := text anime_el "my_status" in
  let is_rewatching := is_rewatching anime_el in
  let rewatch_ep := rewatch_ep anime_el in
  let watched_eps := watched_eps anime_el in
  let score := score anime_el in
  let tags := split_tags (text anime_el "my_tags") in
  if norm_is mal_status "dropped" && negb include_dropped then None else
  let status := map_status mal_status is_rewatching in
  let episode := episode_of status rewatch_ep watched_eps in
  let season := if infer_season_flag then infer_season series_title else None in
  let notes_parts := notes_parts mal_status series_type in
  let notes :=
    match notes_parts with
    | [] => None
    | _ => Some (Str.join " | " notes_parts)
    end in
  Some {| title := series_title;
          kind := kind;
          status := status;
          season := season;
          episode := episode;
          absolute_episode := None;
          notes := notes;
          tags := tags;
          rating := if score =? 0 then None else Some score;
          cover_url := None;
          banner_key := None;
          image_url := None |}.

(** The body of the loop of [convert_mal_xml_to_app_json]:
    [items.append(item)] when [build_item] keeps the record. *)
Definition loop_body (include_dropped infer_season_flag : bool)
    (items : list Item) (anime : Element) : list Item :=
  match build_item anime include_dropped infer_season_flag with
  | Some item => items ++ [item]
  | None => items
  end.

(** The loop itself, over [root.findall("anime")], from the empty list. *)
Definition collect_items (root : Element) (include_dropped infer_season_flag : bool)
    : list Item :=
  fold_left (loop_body include_dropped infer_season_flag) (findall root "anime") [].

(** A record is retained when [build_item] gives an item for it. *)
Definition retained (include_dropped infer_season_flag : bool) (a : Element) : bool :=
  match build_item a include_dropped infer_season_flag with
  | Some _ => true
  | None => false
  end.

(** ** The file system and the batch orchestrator *)

(** A path is the list of its components; the empty path is the directory
    the paths are relative to, which always exists. *)
Abbreviation Path := (list string) (only parsing).

Record FS := {
  files : gmap (list string) string;   (* regular files and their contents *)
  dirs : gset (list string);           (* directories *)
}.

Inductive exn :=
| ParseError            (* xml.etree.ElementTree.ParseError *)
| FileNotFoundError
| FileExistsError
| NotADirectoryError
| IsADirectoryError.

Inductive outcome (A : Type) :=
| Ok (a : A)
| Raise (e : exn).
Arguments Ok {A} a.
Arguments Raise {A} e.

(** Computations on the file system that may raise; the state reached when
    the exception is raised is kept. *)
Definition IO (A : Type) : Type := FS -> FS * outcome A.

Definition raise {A} (e : exn) : IO A := fun fs => (fs, Raise e).

#[global] Instance IO_ret : MRet IO := fun A a fs => (fs, Ok a).
#[global] Instance IO_bind : MBind IO := fun A B f m fs =>
  match m fs with
  | (fs', Ok a) => f a fs'
  | (fs', Raise e) => (fs', Raise e)
  end.

Definition parent (p : Path) : Path := removelast p.

Definition is_dir (fs : FS) (p : Path) : bool :=
  bool_decide (p = []) || bool_decide (p ∈ dirs fs).

Definition is_file (fs : FS) (p : Path) : bool :=
  bool_decide (is_Some (files fs !! p)).

(** [Path.mkdir(parents=True, exist_ok=True)], one component after the
    other below [base]. *)
Fixpoint mkdir_from (base : Path) (rest : list string) : IO unit :=
  match rest with
  | [] => mret tt
  | c :: rest' =>
      let q := base ++ [c] in
      fun fs =>
        if is_dir fs q then mkdir_from q rest' fs
        else if is_file fs q then
          (fs, Raise (match rest' with [] => FileExistsError | _ => NotADirectoryError end))
        else mkdir_from q rest' {| files := files fs; dirs := {[ q ]} ∪ dirs fs |}
  end.

Definition mkdir_parents (p : Path) : IO unit := mkdir_from [] p.

(** [path.open("w")] followed by one write of [content] and the close. *)
Definition write_text (p : Path) (content : string) : IO unit :=
  fun fs =>
    if is_dir fs p then (fs, Raise IsADirectoryError)
    else if negb (is_dir fs (parent p)) then (fs, Raise FileNotFoundError)
    else ({| files := <[p := content]> (files fs); dirs := dirs fs |}, Ok tt).

Section Orchestrator.

(** The XML parser of [ET.parse] on the contents of a file ([None]: not
    well formed), and the serializer [json.dump(..., ensure_ascii=False,
    indent=2)]. *)
Variable xml_parse : string -> option Element.
Variable json_dump : list Item -> string.

(** [ET.parse(str(input_path)).getroot()] *)
Definition ET_parse (input_path : Path) : IO Element :=
  fun fs =>
    if is_dir fs input_path then (fs, Raise IsADirectoryError) else
    match files fs !! input_path with
    | None => (fs, Raise FileNotFoundError)
    | Some content =>
        match xml_parse content with
        | Some root => (fs, Ok root)
        | None => (fs, Raise ParseError)
        end
    end.

Definition convert_mal_xml_to_app_json (input_path output_path : Path)
    (include_dropped infer_season_flag : bool) : IO (list Item) :=
  root ← ET_parse input_path;
  let items := collect_items root include_dropped infer_season_flag in
  mkdir_parents (parent output_path);;
  write_text output_path (json_dump items);;
  mret items.

End Orchestrator.

(** ** Example records and documents *)

(** Records for the examples: an [<anime>] element with the given child
    elements, each holding a text. *)
Definition anime (fields : list (string * string)) : Element :=
  Elem "anime" None (map (fun f => Elem (fst f) (Some (snd f)) []) fields).

Definition nonzero (n : Z) : option Z := if n =? 0 then None else Some n.

(** A document of three records, the second one dropped, for the examples. *)
Definition sample_root : Element :=
  Elem "myanimelist" None
    [anime [("series_title", "Attack on Titan Season 3"); ("series_type", "TV");
            ("my_status", "Watching"); ("my_watched_episodes", "12")];
     anime [("series_title", "Monster"); ("my_status", "Dropped")];
     anime [("series_title", "Your Name."); ("series_type", "Movie");
            ("my_status", "Completed"); ("my_score", "9")]].

Definition sample_fs : FS :=
  {| files := {[ ["export"; "mal.xml"] := "<myanimelist/>" ]};
     dirs := {[ ["export"] ]} |}.

(** ** Definitions for the further properties *)

(** A pattern all of whose matches set group 1. *)
Fixpoint sets_group (r : regex) : bool :=
  match r with
  | Group _ => true
  | Seq r1 r2 => sets_group r1 || sets_group r2
  | Alt r1 r2 => sets_group r1 && sets_group r2
  | _ => false
  end.

(** The first result in a list of rule results. *)
Fixpoint first_some (rs : list (option Z)) : option Z :=
  match rs with
  | [] => None
  | Some n :: _ => Some n
  | None :: rs' => first_some rs'
  end.

(** The values of the [kind] and [status] fields. *)
Definition KINDS : list string := ["SERIES"; "MOVIE"].
Definition STATUSES : list string :=
  ["WATCHING"; "COMPLETED"; "PLAN"; "WAITING"; "REWATCH"].

(** The test of [build_item] that filters a record out. *)
Definition is_dropped (anime_el : Element) : bool :=
  norm_is (text anime_el "my_status") "dropped".

(** An item with its season taken out. *)
Definition without_season (item : Item) : Item :=
  {| title := title item; kind := kind item; status := status item;
     season := None; episode := episode item;
     absolute_episode := absolute_episode item; notes := notes item;
     tags := tags item; rating := rating item; cover_url := cover_url item;
     banner_key := banner_key item; image_url := image_url item |}.

(** The status mapping on a text already stripped and lowercased. *)
Definition status_of_norm (s : string) : string :=
  if String.eqb s "watching" then "WATCHING"
  else if String.eqb s "completed" then "COMPLETED"
  else if String.eqb s "on-hold" then "WAITING"
  else "PLAN".

(** The two kinds of note: the one for the status and the one for the type. *)
Definition status_fragment (mal_status : option string) : option string :=
  if norm_is mal_status "on-hold" then Some "MAL: On-Hold"
  else if norm_is mal_status "dropped" then Some "MAL: Dropped"
  else None.

Definition type_fragment (series_type : option string) : option string :=
  match series_type with
  | Some st => if is_tv_or_movie st then None else Some ("MAL type: " +:+ st)
  | None => None
  end.

(** The child tags whose text [build_item] uses. *)
Definition USED_TAGS : list string :=
  ["series_title"; "series_type"; "my_status"; "my_rewatching";
   "my_rewatching_ep"; "my_watched_episodes"; "my_score"; "my_tags"].

(** ** The command line *)



Section Main.

Variable xml_parse : string -> option Element.
Variable json_dump : list Item -> string.
(** [str(path)] and [str(e)] of the two formatted messages. *)
Variable path_str : list string -> string.
Variable exn_str : exn -> string.


End Main.

(** * Properties *)

(** ** Facts about the string methods *)

Module StrFacts.
Import Str.

Lemma is_empty_true s : is_empty s = true <-> s = EmptyString.
Proof. destruct s; simpl; split; congruence. Qed.

Lemma is_empty_false s : is_empty s = false <-> s <> EmptyString.
Proof. destruct s; simpl; split; congruence. Qed.

Lemma lstrip_fix c s : Char.is_space c = false -> lstrip (String c s) = String c s.
Proof. intros H. simpl. now rewrite H. Qed.

Lemma lstrip_head s :
  lstrip s = EmptyString \/
  exists c r, lstrip s = String c r /\ Char.is_space c = false.
Proof.
  induction s as [|c s IH]; simpl; [now left|].
  destruct (Char.is_space c) eqn:E; [exact IH|]. right. eauto.
Qed.

Lemma rstrip_idem s : rstrip (rstrip s) = rstrip s.
Proof.
  induction s as [|c s IH]; simpl; [reflexivity|].
  destruct (rstrip s) as [|a r] eqn:E.
  - destruct (Char.is_space c) eqn:Ec; simpl; [reflexivity|]. now rewrite Ec.
  - change (rstrip (String c (String a r))) with
      (match rstrip (String a r) with
       | EmptyString => if Char.is_space c then EmptyString else String c EmptyString
       | r' => String c r'
       end).
    now rewrite IH.
Qed.

Lemma rstrip_head c s :
  Char.is_space c = false -> exists r, rstrip (String c s) = String c r.
Proof.
  intros H. simpl. destruct (rstrip s); [rewrite H|]; eauto.
Qed.

(** The last character of a right-stripped string is no whitespace. *)
Lemma rstrip_last s c : last (rstrip s) = Some c -> Char.is_space c = false.
Proof.
  induction s as [|d s IH]; simpl; [discriminate|].
  destruct (rstrip s) as [|a r] eqn:E.
  - destruct (Char.is_space d) eqn:Ed; simpl; [discriminate|]. congruence.
  - intros H. apply IH. exact H.
Qed.

Lemma strip_first s c : first (strip s) = Some c -> Char.is_space c = false.
Proof.
  unfold strip. destruct (lstrip_head s) as [E|(d & r & E & Hd)]; rewrite E.
  - discriminate.
  - destruct (rstrip_head d r Hd) as [r' Er]. rewrite Er. simpl. congruence.
Qed.

Lemma strip_last s c : last (strip s) = Some c -> Char.is_space c = false.
Proof. apply rstrip_last. Qed.

(** [strip] is idempotent: a stripped string is its own strip. *)
Lemma strip_idem s : strip (strip s) = strip s.
Proof.
  unfold strip. destruct (lstrip_head s) as [E|(d & r & E & Hd)]; rewrite E.
  - reflexivity.
  - destruct (rstrip_head d r Hd) as [r' Er].
    rewrite Er, (lstrip_fix _ _ Hd), <- Er. apply rstrip_idem.
Qed.

Lemma append_nil_r s : s +:+ EmptyString = s.
Proof. induction s; simpl; congruence. Qed.

Lemma length_append (a b : string) :
  String.length (a +:+ b) = (String.length a + String.length b)%nat.
Proof. induction a; simpl; congruence. Qed.

Lemma take_append w s :
  take (String.length (w +:+ s) - String.length s) (w +:+ s) = w.
Proof.
  rewrite length_append.
  replace (String.length w + String.length s - String.length s)%nat
    with (String.length w) by lia.
  induction w as [|c w IH]; simpl; [now destruct s|]. now rewrite IH.
Qed.

Lemma append_assoc (a b c : string) : (a +:+ b) +:+ c = a +:+ (b +:+ c).
Proof. induction a; simpl; congruence. Qed.

Lemma all_append p x y : all p (x +:+ y) = all p x && all p y.
Proof.
  induction x as [|c x IH]; simpl; [reflexivity|]. now rewrite IH, andb_assoc.
Qed.

Lemma last_append x y : y <> EmptyString -> last (x +:+ y) = last y.
Proof.
  intros Hy. induction x as [|c x IH]; simpl; [reflexivity|].
  rewrite IH. destruct (x +:+ y) eqn:E; [|reflexivity].
  destruct x; simpl in E; [congruence|discriminate].
Qed.

Lemma all_last p s c : all p s = true -> last s = Some c -> p c = true.
Proof.
  induction s as [|d s IH]; simpl; [discriminate|].
  intros H. apply andb_prop in H as [Hd Hs]. destruct s; [congruence|]. now apply IH.
Qed.

Lemma last_Some s : s <> EmptyString -> exists c, last s = Some c.
Proof.
  induction s as [|d s IH]; [congruence|]. intros _. simpl.
  destruct s; [eauto|]. apply IH. discriminate.
Qed.

End StrFacts.

(** ** Soundness of the matcher

    What a successful run of a pattern has consumed, and what group 1 can
    hold afterwards, stated without the matcher's control flow. *)

Module ReFacts.
Import Re StrFacts.

Section Sound.
Context {A : Type}.

Lemma star_sound p prev s (k : option ascii -> string -> option A) res :
  star p prev s k = Some res ->
  exists prev' w s',
    s = w +:+ s' /\ Str.all p w = true /\ k prev' s' = Some res.
Proof.
  revert prev. induction s as [|c s IH]; intros prev; simpl.
  - intros H. exists prev, EmptyString, EmptyString. auto.
  - destruct (p c) eqn:Ep.
    + destruct (star p (Some c) s k) as [a|] eqn:E.
      * intros [= ->]. destruct (IH _ E) as (prev' & w & s' & -> & Hw & Hk).
        exists prev', (String c w), s'. simpl. rewrite Ep, Hw. auto.
      * intros H. exists prev, EmptyString, (String c s). auto.
    + intros H. exists prev, EmptyString, (String c s). auto.
Qed.

Lemma rep_sound p lo hi prev s (k : option ascii -> string -> option A) res :
  rep p lo hi prev s k = Some res ->
  exists prev' w s',
    s = w +:+ s' /\ Str.all p w = true /\
    (lo <= String.length w)%nat /\ (String.length w <= hi)%nat /\
    k prev' s' = Some res.
Proof.
  assert (Hstop : forall lo hi prev s,
             match lo with O => k prev s | S _ => None end = Some res ->
             exists prev' w s',
               s = w +:+ s' /\ Str.all p w = true /\
               (lo <= String.length w)%nat /\ (String.length w <= hi)%nat /\
               k prev' s' = Some res).
  { intros [|lo'] hi' prev' s' H; [|discriminate].
    exists prev', EmptyString, s'. simpl. repeat split; auto; lia. }
  revert lo prev s. induction hi as [|hi IH]; intros lo prev s; simpl.
  - apply Hstop.
  - destruct s as [|c s]; [apply Hstop|].
    destruct (p c) eqn:Ep; [|apply Hstop].
    destruct (rep p (Nat.pred lo) hi (Some c) s k) as [a|] eqn:E; [|apply Hstop].
    intros [= ->].
    destruct (IH _ _ _ E) as (prev' & w & s' & -> & Hw & Hlo & Hhi & Hk).
    exists prev', (String c w), s'. simpl. rewrite Ep, Hw.
    repeat split; auto; lia.
Qed.

Lemma run_sound ic r : forall prev s cap (k : cont) (res : A),
  run ic r prev s cap k = Some res ->
  exists prev' w s' cap',
    s = w +:+ s' /\ consumes ic r w /\
    (cap' = cap \/ exists g, cap' = Some g /\ captured ic r g) /\
    k prev' s' cap' = Some res.
Proof.
  induction r as [|c|cs|r1 IH1 r2 IH2|r1 IH1 r2 IH2|r1 IH1|cs lo hi|cs|cs
                 |r1 IH1| |]; intros prev s cap k res; simpl.
  - intros H. exists prev, EmptyString, s, cap. auto.
  - destruct s as [|d s]; [discriminate|].
    destruct (lit_eq ic c d) eqn:E; [|discriminate]. intros H.
    exists (Some d), (String d EmptyString), s, cap. simpl. eauto 8.
  - destruct s as [|d s]; [discriminate|].
    destruct (in_cset cs d) eqn:E; [|discriminate]. intros H.
    exists (Some d), (String d EmptyString), s, cap. simpl. eauto 8.
  - intros H.
    destruct (IH1 _ _ _ _ _ H) as (p1 & w1 & s1 & c1 & -> & Hw1 & Hc1 & H1).
    destruct (IH2 _ _ _ _ _ H1) as (p2 & w2 & s2 & c2 & -> & Hw2 & Hc2 & H2).
    exists p2, (w1 +:+ w2), s2, c2. rewrite append_assoc.
    repeat split; eauto.
    destruct Hc2 as [->|(g & -> & Hg)]; [|eauto].
    destruct Hc1 as [->|(g & -> & Hg)]; eauto.
  - destruct (run ic r1 prev s cap k) as [a|] eqn:E.
    + intros [= ->].
      destruct (IH1 _ _ _ _ _ E) as (p1 & w1 & s1 & c1 & -> & Hw1 & Hc1 & H1).
      exists p1, w1, s1, c1. repeat split; auto.
      destruct Hc1 as [->|(g & -> & Hg)]; eauto.
    + intros H.
      destruct (IH2 _ _ _ _ _ H) as (p1 & w1 & s1 & c1 & -> & Hw1 & Hc1 & H1).
      exists p1, w1, s1, c1. repeat split; auto.
      destruct Hc1 as [->|(g & -> & Hg)]; eauto.
  - destruct (run ic r1 prev s cap k) as [a|] eqn:E.
    + intros [= ->].
      destruct (IH1 _ _ _ _ _ E) as (p1 & w1 & s1 & c1 & -> & Hw1 & Hc1 & H1).
      exists p1, w1, s1, c1. repeat split; auto.
    + intros H. exists prev, EmptyString, s, cap. auto.
  - intros H.
    destruct (rep_sound _ _ _ _ _ _ _ H) as (p1 & w & s1 & -> & Hw & Hlo & Hhi & Hk).
    exists p1, w, s1, cap. auto 8.
  - intros H.
    destruct (star_sound _ _ _ _ _ H) as (p1 & w & s1 & -> & Hw & Hk).
    exists p1, w, s1, cap. auto 8.
  - destruct s as [|d s]; [discriminate|].
    destruct (in_cset cs d) eqn:E; [|discriminate]. intros H.
    destruct (star_sound _ _ _ _ _ H) as (p1 & w & s1 & -> & Hw & Hk).
    exists p1, (String d w), s1, cap. simpl. rewrite E, Hw.
    repeat split; auto; lia.
  - intros H.
    destruct (IH1 _ _ _ _ _ H) as (p1 & w1 & s1 & c1 & -> & Hw1 & Hc1 & H1).
    rewrite take_append in H1.
    exists p1, w1, s1, (Some w1). repeat split; eauto.
  - destruct (at_boundary prev s); [|discriminate]. intros H.
    exists prev, EmptyString, s, cap. auto.
  - destruct (at_end s); [|discriminate]. intros H.
    exists prev, EmptyString, s, cap. auto.
Qed.
End Sound.

Lemma search_from_captured p : forall s prev m,
  search_from p prev s = Some m ->
  m = None \/ exists g, m = Some g /\ captured (pat_ic p) (pat_re p) g.
Proof.
  assert (Hhere : forall prev s m, match_here p prev s = Some m ->
            m = None \/ exists g, m = Some g /\ captured (pat_ic p) (pat_re p) g).
  { intros prev s m H. unfold match_here in H.
    destruct (run_sound _ _ _ _ _ _ _ H) as (p1 & w & s1 & c1 & _ & _ & Hc & [= <-]).
    exact Hc. }
  induction s as [|c s IH]; intros prev m; simpl.
  - destruct (match_here p prev EmptyString) eqn:E; [|discriminate].
    intros [= <-]. eapply Hhere, E.
  - destruct (match_here p prev (String c s)) eqn:E.
    + intros [= <-]. eapply Hhere, E.
    + apply IH.
Qed.

(** After [p.search(s)], group 1 holds a text its group may capture. *)
Lemma search_captured p s m :
  search p s = Some m ->
  m = None \/ exists g, m = Some g /\ captured (pat_ic p) (pat_re p) g.
Proof. apply search_from_captured. Qed.

Lemma search_from_eq p prev s :
  search_from p prev s
  = match match_here p prev s with
    | Some m => Some m
    | None =>
        match s with
        | String c s' => search_from p (Some c) s'
        | EmptyString => None
        end
    end.
Proof. destruct s; reflexivity. Qed.

Lemma at_end_cases s :
  at_end s = true -> s = EmptyString \/ s = String "010" EmptyString.
Proof.
  destruct s as [|c [|d s]]; simpl; auto; [|discriminate].
  intros H. apply Ascii.eqb_eq in H. subst. now right.
Qed.

End ReFacts.

(** ** Facts about [int] on the text of a digit group *)

Module IntFacts.
Import Str StrFacts.

Lemma digit_facts c :
  Char.is_digit c = true ->
  Char.is_space c = false /\ Char.eqb c "+" = false /\ Char.eqb c "-" = false /\
  0 <= Char.digit_val c <= 9.
Proof.
  destruct c as [[] [] [] [] [] [] [] []]; vm_compute; intros H;
    try discriminate H; repeat split; discriminate.
Qed.

Lemma to_int_digit1 c :
  Char.is_digit c = true -> to_int (String c EmptyString) = Some (Char.digit_val c).
Proof.
  intros H. destruct (digit_facts c H) as (Hs & Hp & Hm & _).
  unfold to_int, strip. simpl. rewrite Hs. simpl. rewrite Hs, Hp, Hm.
  simpl. now rewrite H.
Qed.

Lemma to_int_digit2 c d :
  Char.is_digit c = true -> Char.is_digit d = true ->
  to_int (String c (String d EmptyString))
  = Some (10 * Char.digit_val c + Char.digit_val d).
Proof.
  intros Hc Hd. destruct (digit_facts c Hc) as (Hs & Hp & Hm & _).
  destruct (digit_facts d Hd) as (Hs' & _).
  unfold to_int, strip. simpl. rewrite Hs. simpl. rewrite Hs'. rewrite Hp, Hm.
  simpl. now rewrite Hc, Hd.
Qed.

(** One or two digits convert, to a number between 0 and 99. *)
Lemma to_int_digits12 g :
  all Char.is_digit g = true ->
  (1 <= String.length g)%nat -> (String.length g <= 2)%nat ->
  exists n, to_int g = Some n /\ 0 <= n <= 99.
Proof.
  intros Hall Hlo Hhi.
  destruct g as [|c [|d [|e g]]]; simpl in *; try lia.
  - apply andb_prop in Hall as [Hc _].
    exists (Char.digit_val c). split; [now apply to_int_digit1|].
    destruct (digit_facts c Hc) as (_ & _ & _ & ?). lia.
  - apply andb_prop in Hall as [Hc Hall]. apply andb_prop in Hall as [Hd _].
    exists (10 * Char.digit_val c + Char.digit_val d).
    split; [now apply to_int_digit2|].
    destruct (digit_facts c Hc) as (_ & _ & _ & ?).
    destruct (digit_facts d Hd) as (_ & _ & _ & ?). lia.
Qed.

End IntFacts.

(** ** Season inference *)

Module SeasonFacts.
Import Re ReFacts IntFacts.

Lemma digit_group_S_OR_SEASON_NUM : digit_group RE_S_OR_SEASON_NUM.
Proof. intros g H. unfold digit_text. simpl in H. tauto. Qed.

Lemma digit_group_ORDINAL_SEASON : digit_group RE_ORDINAL_SEASON.
Proof. intros g H. unfold digit_text. simpl in H. tauto. Qed.

Lemma digit_group_SEASON_NUM : digit_group RE_SEASON_NUM.
Proof. intros g H. unfold digit_text. simpl in H. tauto. Qed.

Lemma digit_group_PART_NUM : digit_group RE_PART_NUM.
Proof. intros g H. unfold digit_text. simpl in H. tauto. Qed.


Lemma num_rule_range p t n :
  digit_group p -> num_rule p t = Some n -> 0 <= n <= 99.
Proof.
  intros Hp. unfold num_rule.
  destruct (search p t) as [m|] eqn:E; [|discriminate].
  destruct (search_captured _ _ _ E) as [->|(g & -> & Hg)]; simpl; [discriminate|].
  destruct (Hp g Hg) as (Hall & Hlo & Hhi).
  destruct (to_int_digits12 g Hall Hlo Hhi) as (n' & -> & Hn). congruence.
Qed.

Lemma roman_lookup_range token n : roman_lookup token = Some n -> 2 <= n <= 10.
Proof.
  unfold roman_lookup, ROMAN_MAP. cbn [List.find fst].
  repeat (destruct (String.eqb _ token); [cbn; intros [= <-]; lia|]).
  cbn. discriminate.
Qed.

Lemma roman_rule_range t n : roman_rule t = Some n -> 2 <= n <= 10.
Proof.
  unfold roman_rule. destruct (search RE_ROMAN t) as [[g|]|]; try discriminate.
  apply roman_lookup_range.
Qed.

Lemma trailing_rule_range t n : trailing_rule t = Some n -> 1 <= n <= 10.
Proof.
  unfold trailing_rule.
  destruct (search RE_TRAILING_NUM t) as [m|]; [|discriminate].
  destruct (group_int m) as [k|]; [|discriminate].
  destruct ((1 <=? k) && (k <=? 10)) eqn:E; [|discriminate].
  intros [= <-]. apply andb_prop in E as [? ?]. lia.
Qed.

(** *** Rule 6 on a title that ends in a number of one or two digits *)

(** A match of [RE_TRAILING_NUM]: digits, whitespace, the end. *)
Lemma trailing_match_here prev s m :
  match_here RE_TRAILING_NUM prev s = Some m ->
  exists w ws tail,
    s = w +:+ ws +:+ tail /\ digit_text w /\
    Str.all Char.is_space ws = true /\ at_end tail = true /\ m = Some w.
Proof.
  unfold match_here. cbn [RE_TRAILING_NUM pat_re pat_ic cat fold_right run in_cset].
  intros H.
  apply rep_sound in H as (p1 & w & s1 & -> & Hw & Hlo & Hhi & H).
  apply star_sound in H as (p2 & ws & s2 & -> & Hws & H).
  destruct (at_end s2) eqn:Ee; [|discriminate].
  injection H as <-.
  exists w, ws, s2. rewrite StrFacts.take_append. repeat split; auto.
Qed.

Lemma trailing_match_at_digits prev g :
  digit_text g -> match_here RE_TRAILING_NUM prev g = Some (Some g).
Proof.
  intros (Hall & Hlo & Hhi).
  destruct g as [|c [|d [|e g]]]; simpl in Hlo, Hhi; try lia; simpl in Hall.
  - apply andb_prop in Hall as [Hc _].
    unfold match_here. cbn. now rewrite Hc.
  - apply andb_prop in Hall as [Hc Hall]. apply andb_prop in Hall as [Hd _].
    unfold match_here. cbn. now rewrite Hc, Hd.
Qed.

(** No match starts before the number: it would have to reach the end
    through the character in front of the number, which is no digit. *)
Lemma trailing_no_match_before prev a pre g :
  no_digit_before (String a pre) -> digit_text g ->
  match_here RE_TRAILING_NUM prev (String a pre +:+ g) = None.
Proof.
  intros Hpre (Hall & Hlo & Hhi).
  destruct (match_here RE_TRAILING_NUM prev (String a pre +:+ g)) as [m|] eqn:E;
    [exfalso|reflexivity].
  apply trailing_match_here in E as (w & ws & tail & Es & (Hw & _) & Hws & He & _).
  assert (Hg : g <> EmptyString) by (destruct g; simpl in Hlo; [lia|discriminate]).
  destruct (StrFacts.last_Some g Hg) as (dg & Hdg).
  pose proof (StrFacts.all_last _ _ _ Hall Hdg) as Hdig.
  assert (Hl : Str.last (w +:+ ws +:+ tail) = Some dg).
  { rewrite <- Es. rewrite StrFacts.last_append; assumption. }
  destruct (digit_facts dg Hdig) as (Hsp & _).
  destruct (at_end_cases tail He) as [->| ->].
  2:{ rewrite <- StrFacts.append_assoc, StrFacts.last_append in Hl by discriminate.
      simpl in Hl. injection Hl as <-. discriminate Hdig. }
  rewrite StrFacts.append_nil_r in Hl, Es.
  destruct ws as [|x ws].
  2:{ rewrite StrFacts.last_append in Hl by discriminate.
      pose proof (StrFacts.all_last _ _ _ Hws Hl). congruence. }
  rewrite StrFacts.append_nil_r in Es. subst w.
  rewrite StrFacts.all_append in Hw. apply andb_prop in Hw as [Hp _].
  destruct (StrFacts.last_Some (String a pre)) as (c & Hc); [discriminate|].
  pose proof (StrFacts.all_last _ _ _ Hp Hc). pose proof (Hpre c Hc). congruence.
Qed.

Lemma trailing_search pre g : forall prev,
  no_digit_before pre -> digit_text g ->
  search_from RE_TRAILING_NUM prev (pre +:+ g) = Some (Some g).
Proof.
  induction pre as [|a pre IH]; intros prev Hpre Hg.
  - change (EmptyString +:+ g) with g.
    now rewrite search_from_eq, (trailing_match_at_digits prev _ Hg).
  - rewrite search_from_eq, (trailing_no_match_before _ _ _ _ Hpre Hg).
    change (String a pre +:+ g) with (String a (pre +:+ g)).
    apply IH; [|exact Hg].
    intros c Hc. apply Hpre. simpl. destruct pre; [discriminate|exact Hc].
Qed.

(** On such a title rule 6 reads the number and keeps it when it is in
    1..10. *)
Lemma trailing_rule_small pre g :
  no_digit_before pre -> digit_text g ->
  exists n, Str.to_int g = Some n /\ 0 <= n <= 99 /\
    trailing_rule (pre +:+ g) = if (1 <=? n) && (n <=? 10) then Some n else None.
Proof.
  intros Hpre Hg. pose proof Hg as (Hall & Hlo & Hhi).
  destruct (to_int_digits12 g Hall Hlo Hhi) as (n & Hn & Hr).
  exists n. repeat split; try tauto.
  unfold trailing_rule, search. rewrite (trailing_search _ _ _ Hpre Hg).
  simpl. now rewrite Hn.
Qed.

End SeasonFacts.

(** ** The scenarios of the specification, run on the embedding *)

Module Scenarios.

Example season_titles :
  map infer_season
    ["Fullmetal Alchemist: Brotherhood"; "Attack on Titan Season 3";
     "One Punch Man 3"; "Your Name."; "Mob Psycho 100"; "Rocky III";
     "Foo 2nd Season"; "Foo Part 2"; "Class S2"; "I"; ""]
  = [None; Some 3; Some 3; None; None; Some 3; Some 2; Some 2; Some 2; None; None].
Proof. vm_compute; reflexivity. Qed.

Example scenario_1 :
  build_item
    (anime [("series_title", "Fullmetal Alchemist: Brotherhood");
            ("series_type", "TV"); ("my_status", "Completed");
            ("my_watched_episodes", "64"); ("my_score", "9")]) false true
  = Some {| title := "Fullmetal Alchemist: Brotherhood"; kind := "SERIES";
            status := "COMPLETED"; season := None; episode := None;
            absolute_episode := None; notes := None; tags := [];
            rating := Some 9; cover_url := None; banner_key := None;
            image_url := None |}.
Proof. vm_compute; reflexivity. Qed.

Example scenario_5 :
  map title (collect_items sample_root false true)
  = ["Attack on Titan Season 3"; "Your Name."] /\
  map title (collect_items sample_root true true)
  = ["Attack on Titan Season 3"; "Monster"; "Your Name."].
Proof. split; vm_compute; reflexivity. Qed.

Example ints :
  map Str.to_int ["1"; " 1 "; "+1"; "-1"; "01"; "1_0"; "1__0"; "_1"; "1_"; "one"; "1.5"]
  = [Some 1; Some 1; Some 1; Some (-1); Some 1; Some 10; None; None; None; None; None].
Proof. vm_compute; reflexivity. Qed.

End Scenarios.

(** C1, as the spec states it, fails: the title ["Season 0"] is answered by
    rule 1 with the integer 0, which is not positive. *)
Lemma infer_season_zero_counterexample :
  exists n, infer_season "Season 0" = Some n /\ ~ (1 <= n).
Proof. exists 0. split; [vm_compute; reflexivity | lia]. Qed.

(** C1 (amended): whenever [infer_season] returns a number it lies between 0
    and 99, so it is never negative; and it is at least 1 unless one of the
    keyword rules 1 to 4 ("S<n>", "<n>th Season", "Season <n>", "Part <n>")
    produced it from the digits "0" or "00". *)
Theorem infer_season_range (series_title : string) (n : Z) :
  infer_season series_title = Some n ->
  0 <= n <= 99 /\
  (1 <= n \/
   exists p, In p keyword_rules /\ num_rule p series_title = Some 0).
Proof.
  unfold infer_season, keyword_rules.
  destruct (Str.is_empty series_title); [discriminate|].
  assert (Hnum : forall p, digit_group p ->
            In p keyword_rules ->
            num_rule p series_title = Some n ->
            0 <= n <= 99 /\
            (1 <= n \/ exists p, In p keyword_rules /\
                                 num_rule p series_title = Some 0)).
  { intros p Hp Hin H.
    pose proof (SeasonFacts.num_rule_range _ _ _ Hp H) as Hr. split; [exact Hr|].
    destruct (Z.eq_dec n 0) as [->|]; [right; eauto | left; lia]. }
  unfold keyword_rules in Hnum.
  destruct (num_rule RE_S_OR_SEASON_NUM series_title) as [a|] eqn:E1.
  { intros [= ->]. eapply Hnum; [apply SeasonFacts.digit_group_S_OR_SEASON_NUM| |exact E1].
    simpl; auto. }
  destruct (num_rule RE_ORDINAL_SEASON series_title) as [a|] eqn:E2.
  { intros [= ->]. eapply Hnum; [apply SeasonFacts.digit_group_ORDINAL_SEASON| |exact E2].
    simpl; auto. }
  destruct (num_rule RE_SEASON_NUM series_title) as [a|] eqn:E3.
  { intros [= ->]. eapply Hnum; [apply SeasonFacts.digit_group_SEASON_NUM| |exact E3].
    simpl; auto. }
  destruct (num_rule RE_PART_NUM series_title) as [a|] eqn:E4.
  { intros [= ->]. eapply Hnum; [apply SeasonFacts.digit_group_PART_NUM| |exact E4].
    simpl; auto. }
  destruct (roman_rule series_title) as [a|] eqn:E5.
  { intros [= ->]. apply SeasonFacts.roman_rule_range in E5. split; [lia|left; lia]. }
  intros H. apply SeasonFacts.trailing_rule_range in H. split; [lia|left; lia].
Qed.

Lemma infer_season_range_witness :
  infer_season "One Punch Man 3" = Some 3 /\
  0 <= 3 <= 99 /\
  (1 <= 3 \/
   exists p, In p keyword_rules /\ num_rule p "One Punch Man 3" = Some 0).
Proof.
  split; [vm_compute; reflexivity|].
  apply (infer_season_range "One Punch Man 3" 3). vm_compute; reflexivity.
Defined.

(** ** The field mapper *)

Module MapperFacts.
Import StrFacts.

(** What [text] returns is stripped and not empty. *)
Lemma text_stripped el tag v :
  text el tag = Some v -> Str.strip v = v /\ Str.is_empty v = false.
Proof.
  unfold text. destruct (findtext el tag) as [t|]; [|discriminate].
  destruct (Str.is_empty (Str.strip t)) eqn:E; [discriminate|].
  intros [= <-]. split; [apply strip_idem | exact E].
Qed.

Lemma norm_is_text el tag v lit :
  text el tag = Some v ->
  norm_is (Some v) lit = String.eqb (Str.lower v) lit.
Proof.
  intros H. destruct (text_stripped _ _ _ H) as [Hs He].
  unfold norm_is. now rewrite He, Hs.
Qed.

Lemma norm_is_lower el tag v lit :
  text el tag = Some v -> Str.lower v = lit -> norm_is (Some v) lit = true.
Proof.
  intros H <-. rewrite (norm_is_text _ _ _ _ H). apply String.eqb_refl.
Qed.

(** Without the rewatching flag the mapped status is never REWATCH. *)
Lemma map_status_false_not_REWATCH mal_status :
  map_status mal_status false <> "REWATCH".
Proof.
  unfold map_status. destruct mal_status as [v|]; [|discriminate].
  destruct (Str.is_empty v); [discriminate|].
  repeat (destruct (String.eqb _ _); [discriminate|]). discriminate.
Qed.

Lemma map_status_dropped mal_status :
  norm_is mal_status "dropped" = true -> map_status mal_status false = "PLAN".
Proof.
  destruct mal_status as [v|]; simpl; [|discriminate].
  unfold map_status. destruct (Str.is_empty v); [reflexivity|]. simpl.
  intros H%String.eqb_eq. rewrite H. reflexivity.
Qed.

Lemma join_cons sep p q qs :
  Str.join sep (p :: q :: qs) = p +:+ sep +:+ Str.join sep (q :: qs).
Proof. reflexivity. Qed.

(** A fragment of the list is a substring of the joined text. *)
Lemma join_contains sep f parts :
  In f parts -> Str.contains f (Str.join sep parts).
Proof.
  induction parts as [|p ps IH]; [intros []|].
  intros [->|Hin].
  - destruct ps as [|q qs].
    + exists EmptyString, EmptyString. simpl. now rewrite append_nil_r.
    + exists EmptyString, (sep +:+ Str.join sep (q :: qs)). reflexivity.
  - destruct ps as [|q qs]; [destruct Hin|].
    destruct (IH Hin) as (a & b & E). rewrite join_cons, E.
    exists (p +:+ sep +:+ a), b. now rewrite !append_assoc.
Qed.

(** The fields of the item, read off [build_item]. *)
Lemma build_item_Some el d i item :
  build_item el d i = Some item ->
  (norm_is (text el "my_status") "dropped" && negb d = false) /\
  kind item = map_kind (text el "series_type") /\
  status item = map_status (text el "my_status") (is_rewatching el) /\
  episode item = episode_of (status item) (rewatch_ep el) (watched_eps el) /\
  notes item =
    match notes_parts (text el "my_status") (text el "series_type") with
    | [] => None
    | _ => Some (Str.join " | "
                   (notes_parts (text el "my_status") (text el "series_type")))
    end /\
  tags item = split_tags (text el "my_tags").
Proof.
  unfold build_item.
  destruct (norm_is (text el "my_status") "dropped" && negb d) eqn:E;
    [discriminate|].
  intros [= <-]. repeat split; reflexivity.
Qed.

Lemma build_item_None el d i :
  build_item el d i = None <->
  norm_is (text el "my_status") "dropped" && negb d = true.
Proof.
  unfold build_item.
  destruct (norm_is (text el "my_status") "dropped" && negb d);
    split; congruence.
Qed.

Lemma notes_of_parts el d i item f :
  build_item el d i = Some item ->
  In f (notes_parts (text el "my_status") (text el "series_type")) ->
  exists n, notes item = Some n /\ Str.contains f n.
Proof.
  intros H Hin. destruct (build_item_Some _ _ _ _ H) as (_ & _ & _ & _ & Hn & _).
  rewrite Hn.
  destruct (notes_parts (text el "my_status") (text el "series_type")) as [|p ps] eqn:E;
    [destruct Hin|].
  eexists. split; [reflexivity|]. now apply join_contains.
Qed.

(** The flag against the text of [my_rewatching], case by case. *)
Lemma is_rewatching_cases anime_el :
  (is_rewatching anime_el = true <->
   exists v, text anime_el "my_rewatching" = Some v /\ Str.to_int v = Some 1) /\
  (text anime_el "my_rewatching" = None -> is_rewatching anime_el = false) /\
  (forall v, text anime_el "my_rewatching" = Some v ->
     Str.to_int v = None -> is_rewatching anime_el = false) /\
  (forall v n, text anime_el "my_rewatching" = Some v ->
     Str.to_int v = Some n -> n <> 1 -> is_rewatching anime_el = false).
Proof.
  unfold is_rewatching, safe_int.
  destruct (text anime_el "my_rewatching") as [v|].
  - destruct (Str.to_int v) as [n|] eqn:E.
    + repeat split.
      * intros H%Z.eqb_eq. subst n. eauto.
      * intros (v' & [= <-] & Hv). rewrite E in Hv. injection Hv as ->. reflexivity.
      * discriminate.
      * intros v' [= <-] Hv. rewrite E in Hv. discriminate.
      * intros v' n' [= <-] Hv Hn. rewrite E in Hv. injection Hv as ->.
        now apply Z.eqb_neq.
    + repeat split; try reflexivity; try discriminate.
      intros (v' & [= <-] & Hv). rewrite E in Hv. discriminate.
  - repeat split; try reflexivity; try discriminate.
    intros (v' & Hv & _). discriminate.
Qed.

(** The status REWATCH marks exactly the records with the flag. *)
Lemma status_REWATCH_iff anime_el d i item :
  build_item anime_el d i = Some item ->
  (status item = "REWATCH" <-> is_rewatching anime_el = true).
Proof.
  intros H. destruct (build_item_Some _ _ _ _ H) as (_ & _ & Hs & _).
  rewrite Hs. destruct (is_rewatching anime_el); [split; reflexivity|].
  split; [|discriminate].
  intros E. now apply map_status_false_not_REWATCH in E.
Qed.

End MapperFacts.

(** C2, as the spec states it, fails: a record that is Dropped and has the
    rewatching flag set is, when dropped records are included, given the
    status REWATCH and not PLAN. *)
Lemma dropped_rewatching_counterexample :
  let el := anime [("series_title", "Monster"); ("my_status", "Dropped");
                   ("my_rewatching", "1")] in
  text el "my_status" = Some "Dropped" /\
  Str.lower "Dropped" = "dropped" /\
  exists item, build_item el true true = Some item /\ status item <> "PLAN".
Proof.
  repeat split; try (vm_compute; reflexivity).
  eexists. split; [vm_compute; reflexivity|]. simpl. discriminate.
Qed.

(** C2 (amended): for every source record whose status is "Dropped"
    (compared case-insensitively): if [include_dropped] is false the record
    produces no item; if it is true the record produces an item whose notes
    contain the fragment "MAL: Dropped" and whose status is PLAN, unless the
    rewatching flag is set, in which case the status is REWATCH. *)
Theorem dropped_record (anime_el : Element) (infer_season_flag : bool) (v : string) :
  text anime_el "my_status" = Some v ->
  Str.lower v = "dropped" ->
  build_item anime_el false infer_season_flag = None /\
  exists item,
    build_item anime_el true infer_season_flag = Some item /\
    status item = (if is_rewatching anime_el then "REWATCH" else "PLAN") /\
    exists n, notes item = Some n /\ Str.contains "MAL: Dropped" n.
Proof.
  intros Ht Hl.
  assert (Hd : norm_is (text anime_el "my_status") "dropped" = true).
  { rewrite Ht. eapply MapperFacts.norm_is_lower; eauto. }
  split; [apply MapperFacts.build_item_None; now rewrite Hd|].
  destruct (build_item anime_el true infer_season_flag) as [item|] eqn:E.
  2:{ apply MapperFacts.build_item_None in E. rewrite andb_false_r in E. discriminate. }
  exists item. split; [reflexivity|].
  destruct (MapperFacts.build_item_Some _ _ _ _ E) as (_ & _ & Hs & _).
  split.
  - rewrite Hs. destruct (is_rewatching anime_el); [reflexivity|].
    now apply MapperFacts.map_status_dropped.
  - eapply MapperFacts.notes_of_parts; [exact E|].
    unfold notes_parts. rewrite Hd. apply in_or_app. right. now left.
Qed.

Lemma dropped_record_witness :
  let el := anime [("series_title", "Monster"); ("my_status", "DROPPED")] in
  build_item el false true = None /\
  exists item,
    build_item el true true = Some item /\
    status item = (if is_rewatching el then "REWATCH" else "PLAN") /\
    exists n, notes item = Some n /\ Str.contains "MAL: Dropped" n.
Proof.
  apply (dropped_record
           (anime [("series_title", "Monster"); ("my_status", "DROPPED")])
           true "DROPPED"); vm_compute; reflexivity.
Defined.

(** C3: the episode of an output item is absent unless its status is
    WATCHING or REWATCH; for REWATCH it is the rewatch-episode count, for
    WATCHING the watched-episode count, and a count of 0 gives an absent
    episode. *)
Theorem episode_derivation (anime_el : Element)
    (include_dropped infer_season_flag : bool) (item : Item) :
  build_item anime_el include_dropped infer_season_flag = Some item ->
  (status item = "REWATCH" -> episode item = nonzero (rewatch_ep anime_el)) /\
  (status item = "WATCHING" -> episode item = nonzero (watched_eps anime_el)) /\
  (status item <> "WATCHING" -> status item <> "REWATCH" -> episode item = None) /\
  (episode item <> Some 0).
Proof.
  intros H.
  destruct (MapperFacts.build_item_Some _ _ _ _ H) as (_ & _ & _ & He & _).
  rewrite He. unfold episode_of, nonzero. repeat split.
  - intros ->. reflexivity.
  - intros ->. reflexivity.
  - intros Hw Hr. apply String.eqb_neq in Hw, Hr. now rewrite Hw, Hr.
  - destruct (_ || _); [|discriminate].
    destruct (String.eqb _ _).
    + destruct (rewatch_ep anime_el =? 0) eqn:E; [discriminate|].
      intros [= E']. rewrite E' in E. discriminate.
    + destruct (watched_eps anime_el =? 0) eqn:E; [discriminate|].
      intros [= E']. rewrite E' in E. discriminate.
Qed.

Lemma episode_derivation_witness :
  let el := anime [("series_title", "Attack on Titan Season 3");
                   ("series_type", "TV"); ("my_status", "Watching");
                   ("my_watched_episodes", "12")] in
  exists item,
    build_item el false true = Some item /\
    status item = "WATCHING" /\ episode item = Some 12 /\
    (status item = "WATCHING" -> episode item = nonzero (watched_eps el)).
Proof.
  eexists. split; [vm_compute; reflexivity|].
  split; [reflexivity|]. split; [vm_compute; reflexivity|].
  refine (proj1 (proj2 (episode_derivation
    (anime [("series_title", "Attack on Titan Season 3");
            ("series_type", "TV"); ("my_status", "Watching");
            ("my_watched_episodes", "12")]) false true _ _))).
  vm_compute; reflexivity.
Defined.

(** C5: with the rewatching flag true the mapped status is REWATCH, whatever
    the source status is (any text, or absent); so every item built from a
    record with the flag set has the status REWATCH. *)
Theorem rewatching_maps_to_REWATCH (anime_el : Element)
    (include_dropped infer_season_flag : bool) (item : Item) :
  is_rewatching anime_el = true ->
  build_item anime_el include_dropped infer_season_flag = Some item ->
  (forall mal_status, map_status mal_status true = "REWATCH") /\
  map_status (text anime_el "my_status") (is_rewatching anime_el) = "REWATCH" /\
  status item = "REWATCH".
Proof.
  intros Hr H.
  destruct (MapperFacts.build_item_Some _ _ _ _ H) as (_ & _ & Hs & _).
  rewrite Hs, Hr. repeat split; reflexivity.
Qed.

Lemma rewatching_maps_to_REWATCH_witness :
  let el := anime [("series_title", "Cowboy Bebop"); ("my_status", "Completed");
                   ("my_rewatching", "1"); ("my_rewatching_ep", "5")] in
  exists item,
    build_item el false true = Some item /\
    (forall mal_status, map_status mal_status true = "REWATCH") /\
    map_status (text el "my_status") (is_rewatching el) = "REWATCH" /\
    status item = "REWATCH".
Proof.
  eexists. split; [vm_compute; reflexivity|].
  apply (rewatching_maps_to_REWATCH
           (anime [("series_title", "Cowboy Bebop"); ("my_status", "Completed");
                   ("my_rewatching", "1"); ("my_rewatching_ep", "5")])
           false true); vm_compute; reflexivity.
Defined.

(** C9: the rewatching flag is true exactly when the [my_rewatching] field
    is present and converts to the integer 1; an absent field, a text that
    is no integer (it becomes the default 0) and any other integer give a
    false flag. In the item the flag shows as the status REWATCH, which no
    record without the flag gets. *)
Theorem is_rewatching_iff (anime_el : Element) :
  (is_rewatching anime_el = true <->
   exists v, text anime_el "my_rewatching" = Some v /\ Str.to_int v = Some 1) /\
  (text anime_el "my_rewatching" = None -> is_rewatching anime_el = false) /\
  (forall v, text anime_el "my_rewatching" = Some v ->
     Str.to_int v = None -> is_rewatching anime_el = false) /\
  (forall v n, text anime_el "my_rewatching" = Some v ->
     Str.to_int v = Some n -> n <> 1 -> is_rewatching anime_el = false) /\
  (forall include_dropped infer_season_flag item,
     build_item anime_el include_dropped infer_season_flag = Some item ->
     (status item = "REWATCH" <-> is_rewatching anime_el = true)).
Proof.
  destruct (MapperFacts.is_rewatching_cases anime_el) as (H1 & H2 & H3 & H4).
  repeat (split; [assumption|]).
  intros d i item. apply MapperFacts.status_REWATCH_iff.
Qed.

Lemma is_rewatching_iff_witness :
  let el := anime [("my_rewatching", " 2 ")] in
  text el "my_rewatching" = Some "2" /\ Str.to_int "2" = Some 2 /\
  is_rewatching el = false.
Proof.
  split; [vm_compute; reflexivity|]. split; [vm_compute; reflexivity|].
  refine (proj1 (proj2 (proj2 (proj2 (is_rewatching_iff
            (anime [("my_rewatching", " 2 ")]))))) "2" 2 _ _ _);
    vm_compute; congruence.
Defined.

(** C10: a record whose series type reads "movie" when lowercased but is not
    the text "Movie" itself (lowercase "movie", say) gives an item of kind
    MOVIE whose notes contain the fragment "MAL type: <series type>". *)
Theorem movie_kind_with_type_note (anime_el : Element)
    (include_dropped infer_season_flag : bool) (item : Item) (st : string) :
  text anime_el "series_type" = Some st ->
  Str.lower (Str.strip st) = "movie" ->
  st <> "Movie" ->
  build_item anime_el include_dropped infer_season_flag = Some item ->
  kind item = "MOVIE" /\
  exists n, notes item = Some n /\ Str.contains ("MAL type: " +:+ st) n.
Proof.
  intros Ht Hl Hne H.
  destruct (MapperFacts.text_stripped _ _ _ Ht) as [Hs He].
  rewrite Hs in Hl.
  destruct (MapperFacts.build_item_Some _ _ _ _ H) as (_ & Hk & _).
  split.
  - rewrite Hk, Ht. unfold map_kind.
    now rewrite (MapperFacts.norm_is_lower _ _ _ _ Ht Hl).
  - eapply MapperFacts.notes_of_parts; [exact H|].
    unfold notes_parts. rewrite Ht, He. simpl.
    assert (Htv : is_tv_or_movie st = false).
    { unfold is_tv_or_movie. apply orb_false_intro.
      - apply String.eqb_neq. intros ->. discriminate Hl.
      - now apply String.eqb_neq. }
    rewrite Htv. simpl. apply in_or_app. right. apply in_or_app. right. now left.
Qed.

Lemma movie_kind_with_type_note_witness :
  let el := anime [("series_title", "Your Name."); ("series_type", "movie");
                   ("my_status", "Completed")] in
  exists item,
    build_item el false true = Some item /\
    kind item = "MOVIE" /\
    exists n, notes item = Some n /\ Str.contains ("MAL type: " +:+ "movie") n.
Proof.
  eexists. split; [vm_compute; reflexivity|].
  apply (movie_kind_with_type_note
           (anime [("series_title", "Your Name."); ("series_type", "movie");
                   ("my_status", "Completed")])
           false true _ "movie"); try (vm_compute; reflexivity).
  discriminate.
Defined.

(** X17: rule 6 on small trailing numbers: on a title that matches none of the
    rules 1 to 5 and ends in a number of one or two digits, with no digit in
    front of it, the answer is that number when it lies in 1..10, and no
    inference otherwise. *)
Lemma rule6_small_trailing_integer (pre g : string) :
  no_digit_before pre -> digit_text g ->
  (forall p, In p keyword_rules -> num_rule p (pre +:+ g) = None) ->
  roman_rule (pre +:+ g) = None ->
  exists n, Str.to_int g = Some n /\
    infer_season (pre +:+ g)
    = if (1 <=? n) && (n <=? 10) then Some n else None.
Proof.
  intros Hpre Hg Hk Hr.
  destruct (SeasonFacts.trailing_rule_small pre g Hpre Hg) as (n & Hn & _ & Ht).
  exists n. split; [exact Hn|].
  unfold infer_season.
  assert (He : Str.is_empty (pre +:+ g) = false).
  { destruct Hg as (_ & Hlo & _). destruct pre; [|reflexivity].
    destruct g; [simpl in Hlo; lia | reflexivity]. }
  rewrite He, !Hk, Hr by (simpl; tauto). exact Ht.
Qed.

(** C4 fails on the code: the title ["Foo 103"] ends in an integer of three
    digits and matches none of the rules 1 to 5, yet [RE_TRAILING_NUM], which
    has nothing in front of its group, matches the last two digits "03" and
    [infer_season] answers 3. *)
Theorem trailing_number_of_three_digits :
  num_rule RE_S_OR_SEASON_NUM "Foo 103" = None /\
  num_rule RE_ORDINAL_SEASON "Foo 103" = None /\
  num_rule RE_SEASON_NUM "Foo 103" = None /\
  num_rule RE_PART_NUM "Foo 103" = None /\
  roman_rule "Foo 103" = None /\
  Re.search RE_TRAILING_NUM "Foo 103" = Some (Some "03") /\
  infer_season "Foo 103" = Some 3.
Proof. repeat split; vm_compute; reflexivity. Qed.

(** ** Tags *)

Module TagFacts.
Import Str StrFacts.



Lemma join_cons' sep p ps :
  join sep (p :: ps)
  = p +:+ match ps with [] => EmptyString | _ => sep +:+ join sep ps end.
Proof. destruct ps; simpl; [now rewrite append_nil_r | reflexivity]. Qed.

(** [split] cuts at every separator and nowhere else: joining the pieces
    with the separator gives the text back, and no piece holds one. *)
Lemma split_at_spec sep s :
  join (String sep EmptyString) (fst (split_at sep s) :: snd (split_at sep s)) = s /\
  Forall (sep_free sep) (fst (split_at sep s) :: snd (split_at sep s)).
Proof.
  induction s as [|c s [IHj IHf]].
  - split; [reflexivity|]. repeat constructor.
  - cbn [split_at]. destruct (split_at sep s) as [p ps] eqn:E.
    cbn [fst snd] in IHj, IHf.
    destruct (Char.eqb c sep) eqn:Ec; cbn [fst snd].
    + apply Ascii.eqb_eq in Ec. subst c. split.
      * rewrite <- IHj. reflexivity.
      * constructor; [reflexivity | exact IHf].
    + split.
      * rewrite <- IHj, !join_cons'. reflexivity.
      * inversion IHf as [|? ? Hp Hps]; subst. constructor; [|exact Hps].
        unfold sep_free in *. simpl. now rewrite Ec, Hp.
Qed.

Lemma split_spec sep s :
  join (String sep EmptyString) (split sep s) = s /\
  Forall (sep_free sep) (split sep s).
Proof.
  unfold split. pose proof (split_at_spec sep s) as H.
  destruct (split_at sep s) as [p ps]. exact H.
Qed.

Lemma strip_trimmed s : trimmed (strip s).
Proof. split; intros c; [apply strip_first | apply strip_last]. Qed.

End TagFacts.

(** C7: [split_tags] cuts the raw text at its commas (the pieces joined by
    commas are the raw text, and no piece holds a comma), strips each piece,
    drops the pieces that are then empty and keeps the others in order; an
    absent or empty raw text gives the empty list; and
    [split_tags(" a, b ,,c ")] is [["a"; "b"; "c"]]. *)
Theorem split_tags_spec :
  split_tags None = [] /\
  split_tags (Some EmptyString) = [] /\
  split_tags (Some " a, b ,,c ") = ["a"; "b"; "c"] /\
  forall raw : string,
    let pieces := Str.split "," raw in
    Str.join "," pieces = raw /\
    Forall (Str.sep_free ",") pieces /\
    split_tags (Some raw)
    = List.filter (fun p => negb (Str.is_empty p)) (map Str.strip pieces) /\
    Forall (fun t => t <> EmptyString /\ Str.trimmed t /\
                     exists p, In p pieces /\ t = Str.strip p)
           (split_tags (Some raw)).
Proof.
  split; [reflexivity|]. split; [reflexivity|]. split; [vm_compute; reflexivity|].
  intros raw pieces.
  destruct (TagFacts.split_spec "," raw) as [Hj Hf].
  assert (Heq : split_tags (Some raw)
                = List.filter (fun p => negb (Str.is_empty p)) (map Str.strip pieces)).
  { unfold split_tags. destruct raw; reflexivity. }
  repeat split; auto.
  rewrite Heq. apply List.Forall_forall. intros t Ht.
  apply List.filter_In in Ht as [Hin Hne].
  apply List.in_map_iff in Hin as (p & <- & Hp).
  split; [|split].
  - apply StrFacts.is_empty_false. now destruct (Str.is_empty (Str.strip p)).
  - apply TagFacts.strip_trimmed.
  - eauto.
Qed.

(** ** The batch orchestrator *)

Module BatchFacts.

Section Loop.
Variables d i : bool.

Lemma loop_acc records : forall acc,
  fold_left (loop_body d i) records acc = acc ++ omap (fun a => build_item a d i) records.
Proof.
  induction records as [|a records IH]; intros acc; simpl.
  - now rewrite app_nil_r.
  - rewrite IH. unfold loop_body. destruct (build_item a d i) as [item|]; simpl.
    + now rewrite <- app_assoc.
    + reflexivity.
Qed.

Lemma omap_retained records :
  Forall2 (fun a item => build_item a d i = Some item)
          (List.filter (retained d i) records)
          (omap (fun a => build_item a d i) records).
Proof.
  induction records as [|a records IH]; simpl; [constructor|].
  unfold retained at 1. destruct (build_item a d i) as [item|] eqn:E; simpl.
  - constructor; assumption.
  - exact IH.
Qed.
End Loop.

Lemma collect_items_omap root d i :
  collect_items root d i = omap (fun a => build_item a d i) (findall root "anime").
Proof. unfold collect_items. now rewrite loop_acc. Qed.

Section Convert.
Variable xml_parse : string -> option Element.
Variable json_dump : list Item -> string.

(** The three effects of a run, in the order of the code. *)
Lemma convert_steps input_path output_path d i fs :
  convert_mal_xml_to_app_json xml_parse json_dump input_path output_path d i fs
  = match ET_parse xml_parse input_path fs with
    | (fs0, Raise e) => (fs0, Raise e)
    | (fs0, Ok root) =>
        match mkdir_parents (parent output_path) fs0 with
        | (fs1, Raise e) => (fs1, Raise e)
        | (fs1, Ok _) =>
            match write_text output_path
                    (json_dump (collect_items root d i)) fs1 with
            | (fs2, Raise e) => (fs2, Raise e)
            | (fs2, Ok _) => (fs2, Ok (collect_items root d i))
            end
        end
    end.
Proof.
  unfold convert_mal_xml_to_app_json, mbind, IO_bind, mret, IO_ret.
  destruct (ET_parse xml_parse input_path fs) as [fs0 [root|e]]; [|reflexivity].
  destruct (mkdir_parents (parent output_path) fs0) as [fs1 [[]|e]]; [|reflexivity].
  destruct (write_text output_path _ fs1) as [fs2 [[]|e]]; reflexivity.
Qed.

(** A successful write leaves the serialized items in the output file. *)
Lemma write_text_ok p content fs fs' :
  write_text p content fs = (fs', Ok tt) ->
  files fs' !! p = Some content /\ dirs fs' = dirs fs.
Proof.
  unfold write_text. destruct (is_dir fs p); [discriminate|].
  destruct (negb (is_dir fs (parent p))); [discriminate|].
  intros [= <-]. simpl. split; [apply lookup_insert_eq | reflexivity].
Qed.
End Convert.

End BatchFacts.

(** C6: the output sequence holds exactly one item per retained record, in
    the order of the records in the document: it is the list of the items
    that [build_item] gives for the [anime] children of the root, taken in
    document order, position by position against the retained records; and a
    successful run returns this sequence and writes its serialization. *)
Theorem output_follows_document_order
    (xml_parse : string -> option Element) (json_dump : list Item -> string)
    (input_path output_path : list string)
    (include_dropped infer_season_flag : bool) (fs : FS) (root : Element) :
  let records := findall root "anime" in
  let items := collect_items root include_dropped infer_season_flag in
  (items = omap (fun a => build_item a include_dropped infer_season_flag) records /\
   Forall2 (fun a item => build_item a include_dropped infer_season_flag = Some item)
           (List.filter (retained include_dropped infer_season_flag) records)
           items) /\
  (ET_parse xml_parse input_path fs = (fs, Ok root) ->
   forall fs' out,
     convert_mal_xml_to_app_json xml_parse json_dump input_path output_path
       include_dropped infer_season_flag fs = (fs', Ok out) ->
     out = items /\ files fs' !! output_path = Some (json_dump items)).
Proof.
  intros records items. split.
  - split; [apply BatchFacts.collect_items_omap|].
    unfold items. rewrite BatchFacts.collect_items_omap.
    apply BatchFacts.omap_retained.
  - intros Hp fs' out. rewrite BatchFacts.convert_steps, Hp.
    destruct (mkdir_parents (parent output_path) fs) as [fs1 [[]|e]]; [|discriminate].
    destruct (write_text output_path _ fs1) as [fs2 [[]|e]] eqn:Ew; [|discriminate].
    intros [= <- <-]. split; [reflexivity|].
    eapply BatchFacts.write_text_ok, Ew.
Qed.

Lemma output_follows_document_order_witness :
  let parse := fun _ : string => Some sample_root in
  let dump := fun items : list Item => Str.join "," (map title items) in
  ET_parse parse ["export"; "mal.xml"] sample_fs = (sample_fs, Ok sample_root) /\
  exists fs' out,
    convert_mal_xml_to_app_json parse dump ["export"; "mal.xml"] ["out"; "list.json"]
      false true sample_fs = (fs', Ok out) /\
    map title out = ["Attack on Titan Season 3"; "Your Name."] /\
    out = collect_items sample_root false true /\
    files fs' !! ["out"; "list.json"]
    = Some (dump (collect_items sample_root false true)).
Proof.
  intros parse dump.
  assert (Hp : ET_parse parse ["export"; "mal.xml"] sample_fs
               = (sample_fs, Ok sample_root)) by (vm_compute; reflexivity).
  split; [exact Hp|].
  destruct (convert_mal_xml_to_app_json parse dump ["export"; "mal.xml"]
              ["out"; "list.json"] false true sample_fs) as [fs' [out|e]] eqn:E.
  - exists fs', out. split; [reflexivity|].
    destruct (proj2 (output_follows_document_order parse dump
                       ["export"; "mal.xml"] ["out"; "list.json"] false true
                       sample_fs sample_root) Hp fs' out E) as [-> Hf].
    split; [vm_compute; reflexivity|]. split; [reflexivity | exact Hf].
  - exfalso. revert E. vm_compute. discriminate.
Defined.

(** C8: when [ET.parse] fails (the input path is missing or is a directory,
    or its contents are not well formed) the run ends with that exception
    and the file system is the one it started with: no directory has been
    created and the output file has not been opened or written. *)
Theorem parse_failure_writes_nothing
    (xml_parse : string -> option Element) (json_dump : list Item -> string)
    (input_path output_path : list string)
    (include_dropped infer_season_flag : bool) (fs : FS) :
  (is_dir fs input_path = true \/
   files fs !! input_path = None \/
   exists content, files fs !! input_path = Some content /\ xml_parse content = None) ->
  exists e,
    convert_mal_xml_to_app_json xml_parse json_dump input_path output_path
      include_dropped infer_season_flag fs = (fs, Raise e).
Proof.
  intros H. rewrite BatchFacts.convert_steps. unfold ET_parse.
  destruct (is_dir fs input_path) eqn:Ed; [eauto|].
  destruct H as [H|[H|(content & H & Hc)]]; [discriminate| |]; rewrite H.
  - eauto.
  - rewrite Hc. eauto.
Qed.

Lemma parse_failure_writes_nothing_witness :
  exists e,
    convert_mal_xml_to_app_json (fun _ => None) (fun _ => EmptyString)
      ["export"; "mal.xml"] ["out"; "list.json"] false true sample_fs
    = (sample_fs, Raise e).
Proof.
  apply (parse_failure_writes_nothing (fun _ => None) (fun _ => EmptyString)
           ["export"; "mal.xml"] ["out"; "list.json"] false true sample_fs).
  right. right. exists "<myanimelist/>". split; vm_compute; reflexivity.
Defined.

(** * Further properties of the converter *)

(** ** Season inference: which rules can decide *)

Module RuleFacts.
Import Re ReFacts IntFacts SeasonFacts.

Section Sets.
Context {A : Type}.

(** After a run of a pattern that sets its group, group 1 is set. *)
Lemma run_sets ic r : forall prev s cap (k : cont) (res : A),
  run ic r prev s cap k = Some res ->
  exists prev' s' cap',
    (cap' = cap \/ exists g, cap' = Some g /\ captured ic r g) /\
    (sets_group r = true -> exists g, cap' = Some g /\ captured ic r g) /\
    k prev' s' cap' = Some res.
Proof.
  induction r as [|c|cs|r1 IH1 r2 IH2|r1 IH1 r2 IH2|r1 IH1|cs lo hi|cs|cs
                 |r1 IH1| |]; intros prev s cap k res H;
    try (destruct (run_sound _ _ _ _ _ _ _ H) as (p1 & w & s1 & c1 & _ & _ & Hc & Hk);
         exists p1, s1, c1; split; [exact Hc|]; split; [discriminate|exact Hk]).
  - (* Seq *)
    simpl in H.
    destruct (IH1 _ _ _ _ _ H) as (p1 & s1 & c1 & Hc1 & Hs1 & H1).
    destruct (IH2 _ _ _ _ _ H1) as (p2 & s2 & c2 & Hc2 & Hs2 & H2).
    exists p2, s2, c2. simpl. split; [|split; [|exact H2]].
    + destruct Hc2 as [->|(g & -> & Hg)]; [|eauto].
      destruct Hc1 as [->|(g & -> & Hg)]; eauto.
    + intros Hs. apply orb_prop in Hs as [Hs|Hs].
      * destruct (Hs1 Hs) as (g & -> & Hg).
        destruct Hc2 as [->|(g' & -> & Hg')]; eauto.
      * destruct (Hs2 Hs) as (g & -> & Hg). eauto.
  - (* Alt *)
    simpl in H. destruct (run ic r1 prev s cap k) as [a|] eqn:E.
    + injection H as ->.
      destruct (IH1 _ _ _ _ _ E) as (p1 & s1 & c1 & Hc1 & Hs1 & H1).
      exists p1, s1, c1. simpl. split; [|split; [|exact H1]].
      * destruct Hc1 as [->|(g & -> & Hg)]; eauto.
      * intros Hs. apply andb_prop in Hs as [Hs _].
        destruct (Hs1 Hs) as (g & -> & Hg). eauto.
    + destruct (IH2 _ _ _ _ _ H) as (p1 & s1 & c1 & Hc1 & Hs1 & H1).
      exists p1, s1, c1. simpl. split; [|split; [|exact H1]].
      * destruct Hc1 as [->|(g & -> & Hg)]; eauto.
      * intros Hs. apply andb_prop in Hs as [_ Hs].
        destruct (Hs1 Hs) as (g & -> & Hg). eauto.
  - (* Group *)
    simpl in H.
    destruct (run_sound _ _ _ _ _ _ _ H) as (p1 & w & s1 & c1 & -> & Hw & _ & Hk).
    rewrite StrFacts.take_append in Hk.
    exists p1, s1, (Some w). simpl. eauto 8.
Qed.
End Sets.

Lemma search_from_sets p : forall s prev m,
  sets_group (pat_re p) = true ->
  search_from p prev s = Some m ->
  exists g, m = Some g /\ captured (pat_ic p) (pat_re p) g.
Proof.
  intros s prev m Hs. revert prev.
  assert (Hhere : forall prev s, match_here p prev s = Some m ->
            exists g, m = Some g /\ captured (pat_ic p) (pat_re p) g).
  { intros prev s' H. unfold match_here in H.
    destruct (run_sets _ _ _ _ _ _ _ H) as (p1 & s1 & c1 & _ & Hc & [= <-]).
    exact (Hc Hs). }
  induction s as [|c s IH]; intros prev; rewrite search_from_eq.
  - destruct (match_here p prev EmptyString) eqn:E; [|discriminate].
    intros [= <-]. eapply Hhere, E.
  - destruct (match_here p prev (String c s)) eqn:E.
    + intros [= <-]. eapply Hhere, E.
    + apply IH.
Qed.

(** A rule with a digit group that matches gives the number of its group. *)
Lemma num_rule_match p t m :
  digit_group p -> sets_group (pat_re p) = true ->
  search p t = Some m ->
  exists g n, m = Some g /\ digit_text g /\ Str.to_int g = Some n /\
              0 <= n <= 99 /\ num_rule p t = Some n.
Proof.
  intros Hd Hs E.
  destruct (search_from_sets _ _ _ _ Hs E) as (g & -> & Hg).
  pose proof (Hd g Hg) as Hg'. destruct Hg' as (Hall & Hlo & Hhi).
  destruct (to_int_digits12 g Hall Hlo Hhi) as (n & Hn & Hr).
  exists g, n. unfold num_rule. rewrite E. simpl. rewrite Hn.
  repeat split; auto; try lia.
Qed.

Lemma num_rule_None p t :
  digit_group p -> sets_group (pat_re p) = true ->
  (num_rule p t = None <-> search p t = None).
Proof.
  intros Hd Hs. split.
  - destruct (search p t) as [m|] eqn:E; [|reflexivity].
    destruct (num_rule_match _ _ _ Hd Hs E) as (g & n & _ & _ & _ & _ & Hn). congruence.
  - intros E. unfold num_rule. now rewrite E.
Qed.

(** Without IGNORECASE a literal text consumes itself only. *)
Lemma consumes_lits w0 : forall w, consumes false (lits w0) w -> w = w0.
Proof.
  induction w0 as [|c w0 IH]; intros w; simpl; [tauto|].
  intros (w1 & w2 & -> & (d & -> & Hd) & H2).
  apply Ascii.eqb_eq in Hd. subst d. now rewrite (IH _ H2).
Qed.

(** The texts the group of [RE_ROMAN] can hold are the keys of [ROMAN_MAP]. *)
Lemma roman_captured g :
  captured false (pat_re RE_ROMAN) g -> In g (map fst ROMAN_MAP).
Proof.
  intros H. cbn [captured pat_re RE_ROMAN cat fold_right alts consumes] in H.
  repeat match goal with
  | H : _ \/ _ |- _ => destruct H as [H|H]
  | H : False |- _ => destruct H
  end; apply consumes_lits in H; subst; simpl; tauto.
Qed.

Lemma roman_lookup_key g :
  In g (map fst ROMAN_MAP) -> exists n, In (g, n) ROMAN_MAP /\ roman_lookup g = Some n.
Proof.
  simpl. intros H.
  repeat (destruct H as [<-|H]; [eexists; split; [|vm_compute; reflexivity]; simpl; tauto|]).
  destruct H.
Qed.

(** Where [RE_SEASON_NUM] matches, [RE_S_OR_SEASON_NUM] matches too, with
    the same group: after the "S" its optional "eason" is tried first. *)
Lemma season_match_is_s_match prev s m :
  match_here RE_SEASON_NUM prev s = Some m ->
  match_here RE_S_OR_SEASON_NUM prev s = Some m.
Proof.
  unfold match_here.
  cbn [RE_SEASON_NUM RE_S_OR_SEASON_NUM pat_re pat_ic cat fold_right lits run].
  destruct (at_boundary prev s); [|discriminate].
  destruct s as [|c s]; [discriminate|].
  destruct (lit_eq true "S" c); [|discriminate].
  intros H. rewrite H. reflexivity.
Qed.

Lemma season_search_is_s_search : forall s prev m,
  search_from RE_SEASON_NUM prev s = Some m ->
  exists m', search_from RE_S_OR_SEASON_NUM prev s = Some m'.
Proof.
  induction s as [|c s IH]; intros prev m;
    rewrite (search_from_eq RE_SEASON_NUM prev),
            (search_from_eq RE_S_OR_SEASON_NUM prev).
  - destruct (match_here RE_SEASON_NUM prev EmptyString) as [m0|] eqn:E; [|discriminate].
    intros _. rewrite (season_match_is_s_match _ _ _ E). eauto.
  - destruct (match_here RE_SEASON_NUM prev (String c s)) as [m0|] eqn:E.
    + intros _. rewrite (season_match_is_s_match _ _ _ E). eauto.
    + destruct (match_here RE_S_OR_SEASON_NUM prev (String c s)); [eauto|].
      apply IH.
Qed.



Lemma infer_season_bounds t n : infer_season t = Some n -> 0 <= n <= 99.
Proof.
  unfold infer_season. destruct (Str.is_empty t); [discriminate|].
  destruct (num_rule RE_S_OR_SEASON_NUM t) eqn:E1.
  { intros [= <-]. eapply num_rule_range, E1. apply digit_group_S_OR_SEASON_NUM. }
  destruct (num_rule RE_ORDINAL_SEASON t) eqn:E2.
  { intros [= <-]. eapply num_rule_range, E2. apply digit_group_ORDINAL_SEASON. }
  destruct (num_rule RE_SEASON_NUM t) eqn:E3.
  { intros [= <-]. eapply num_rule_range, E3. apply digit_group_SEASON_NUM. }
  destruct (num_rule RE_PART_NUM t) eqn:E4.
  { intros [= <-]. eapply num_rule_range, E4. apply digit_group_PART_NUM. }
  destruct (roman_rule t) eqn:E5.
  { intros [= <-]. apply roman_rule_range in E5. lia. }
  intros H. apply trailing_rule_range in H. lia.
Qed.

Lemma season_rule_dead t :
  num_rule RE_S_OR_SEASON_NUM t = None -> num_rule RE_SEASON_NUM t = None.
Proof.
  intros H.
  apply num_rule_None in H;
    [|apply digit_group_S_OR_SEASON_NUM|reflexivity].
  apply num_rule_None; [apply digit_group_SEASON_NUM|reflexivity|].
  destruct (search RE_SEASON_NUM t) as [m|] eqn:E; [|reflexivity].
  destruct (season_search_is_s_search _ _ _ E) as (m' & Hm').
  unfold search in H. congruence.
Qed.

End RuleFacts.



(** X2: whenever [RE_ROMAN] matches, its token is a key of [ROMAN_MAP] and
    rule 5 returns the value of that key, a number from 2 to 10; rule 5
    falls through exactly when the pattern does not match. *)
Theorem roman_rule_decides_iff_match (series_title : string) :
  (forall m, search RE_ROMAN series_title = Some m ->
     exists token n, m = Some token /\ In (token, n) ROMAN_MAP /\
                     2 <= n <= 10 /\ roman_rule series_title = Some n) /\
  (roman_rule series_title = None <-> search RE_ROMAN series_title = None).
Proof.
  assert (H : forall m, search RE_ROMAN series_title = Some m ->
     exists token n, m = Some token /\ In (token, n) ROMAN_MAP /\
                     2 <= n <= 10 /\ roman_rule series_title = Some n).
  { intros m E.
    destruct (RuleFacts.search_from_sets RE_ROMAN _ _ _ eq_refl E) as (g & -> & Hg).
    apply RuleFacts.roman_captured in Hg.
    destruct (RuleFacts.roman_lookup_key g Hg) as (n & Hin & Hn).
    exists g, n. unfold roman_rule. rewrite E.
    repeat split; auto; apply (SeasonFacts.roman_lookup_range _ _ Hn). }
  split; [exact H|]. split.
  - destruct (search RE_ROMAN series_title) as [m|] eqn:E; [|reflexivity].
    destruct (H m eq_refl) as (g & n & _ & _ & _ & Hn). congruence.
  - intros E. unfold roman_rule. now rewrite E.
Qed.

Lemma roman_rule_decides_iff_match_witness :
  exists token n, Some "III" = Some token /\ In (token, n) ROMAN_MAP /\
                  2 <= n <= 10 /\ roman_rule "Rocky III" = Some n.
Proof.
  refine (proj1 (roman_rule_decides_iff_match "Rocky III") (Some "III") _).
  vm_compute. reflexivity.
Defined.

(** X3: rule 3 ([RE_SEASON_NUM]) never decides: where it matches, rule 1
    ([RE_S_OR_SEASON_NUM]) matches as well and has already answered; so
    [infer_season] is the first result among rules 1, 2, 4, 5 and 6. *)
Theorem season_rule_is_redundant (series_title : string) :
  (num_rule RE_S_OR_SEASON_NUM series_title = None ->
   num_rule RE_SEASON_NUM series_title = None) /\
  infer_season series_title
  = if Str.is_empty series_title then None
    else first_some [num_rule RE_S_OR_SEASON_NUM series_title;
                     num_rule RE_ORDINAL_SEASON series_title;
                     num_rule RE_PART_NUM series_title;
                     roman_rule series_title;
                     trailing_rule series_title].
Proof.
  split; [apply RuleFacts.season_rule_dead|].
  unfold infer_season. destruct (Str.is_empty series_title); [reflexivity|].
  simpl. destruct (num_rule RE_S_OR_SEASON_NUM series_title) eqn:E1; [reflexivity|].
  rewrite (RuleFacts.season_rule_dead _ E1).
  destruct (num_rule RE_ORDINAL_SEASON series_title); [reflexivity|].
  destruct (num_rule RE_PART_NUM series_title); [reflexivity|].
  destruct (roman_rule series_title); [reflexivity|].
  destruct (trailing_rule series_title); reflexivity.
Qed.

Lemma season_rule_is_redundant_witness :
  num_rule RE_S_OR_SEASON_NUM "Rocky III" = None /\
  num_rule RE_SEASON_NUM "Rocky III" = None.
Proof.
  assert (H : num_rule RE_S_OR_SEASON_NUM "Rocky III" = None)
    by (vm_compute; reflexivity).
  split; [exact H|].
  exact (proj1 (season_rule_is_redundant "Rocky III") H).
Defined.

(** ** The field mapper: ranges, normalisation, notes *)

Module FieldFacts.
Import StrFacts MapperFacts.

Lemma map_status_norm v :
  map_status (Some v) false = status_of_norm (Str.lower (Str.strip v)).
Proof.
  unfold map_status, status_of_norm. destruct v as [|c v]; [reflexivity|].
  cbn [Str.is_empty]. generalize (Str.lower (Str.strip (String c v))) as x.
  intros x. cbv zeta.
  destruct (String.eqb x "watching"); [reflexivity|].
  destruct (String.eqb x "completed"); [reflexivity|].
  destruct (String.eqb_spec x "plan to watch") as [->|_]; [reflexivity|].
  destruct (String.eqb x "on-hold"); [reflexivity|].
  destruct (String.eqb x "dropped"); reflexivity.
Qed.

Lemma map_kind_norm v :
  map_kind (Some v) = if String.eqb (Str.lower (Str.strip v)) "movie"
                      then "MOVIE" else "SERIES".
Proof. unfold map_kind, norm_is. destruct v; reflexivity. Qed.

Lemma status_of_norm_range s : In (status_of_norm s) STATUSES.
Proof.
  unfold status_of_norm, STATUSES.
  repeat (destruct (String.eqb s _); [simpl; tauto|]). simpl; tauto.
Qed.

Lemma map_status_range mal_status r : In (map_status mal_status r) STATUSES.
Proof.
  destruct r; [simpl; tauto|].
  destruct mal_status as [v|]; [|simpl; tauto].
  rewrite map_status_norm. apply status_of_norm_range.
Qed.

Lemma map_kind_range series_type : In (map_kind series_type) KINDS.
Proof. unfold map_kind, KINDS. destruct (norm_is series_type "movie"); simpl; tauto. Qed.

(** "on-hold" and "dropped" exclude each other. *)
Lemma on_hold_not_dropped mal_status :
  norm_is mal_status "on-hold" = true -> norm_is mal_status "dropped" = false.
Proof.
  destruct mal_status as [v|]; simpl; [|discriminate].
  destruct (Str.is_empty v); simpl; [discriminate|].
  intros H%String.eqb_eq. now rewrite H.
Qed.

Lemma notes_parts_fragments mal_status series_type :
  (forall v, series_type = Some v -> Str.is_empty v = false) ->
  notes_parts mal_status series_type
  = match status_fragment mal_status with Some a => [a] | None => [] end
    ++ match type_fragment series_type with Some b => [b] | None => [] end.
Proof.
  intros Hne. unfold notes_parts, status_fragment, type_fragment.
  destruct (norm_is mal_status "on-hold") eqn:Eo.
  - rewrite (on_hold_not_dropped _ Eo). simpl.
    destruct series_type as [v|]; [|reflexivity].
    rewrite (Hne v eq_refl). simpl. now destruct (is_tv_or_movie v).
  - simpl. destruct (norm_is mal_status "dropped"); simpl;
      (destruct series_type as [v|]; [|reflexivity]);
      rewrite (Hne v eq_refl); simpl; now destruct (is_tv_or_movie v).
Qed.

End FieldFacts.

(** X4: the [kind] of every item is SERIES or MOVIE and its [status] is one
    of WATCHING, COMPLETED, PLAN, WAITING, REWATCH, whatever texts the source
    record holds. *)
Theorem kind_and_status_ranges :
  (forall series_type, In (map_kind series_type) KINDS) /\
  (forall mal_status r, In (map_status mal_status r) STATUSES) /\
  (forall anime_el include_dropped infer_season_flag item,
     build_item anime_el include_dropped infer_season_flag = Some item ->
     In (kind item) KINDS /\ In (status item) STATUSES).
Proof.
  split; [apply FieldFacts.map_kind_range|].
  split; [apply FieldFacts.map_status_range|].
  intros el d i item H.
  destruct (MapperFacts.build_item_Some _ _ _ _ H) as (_ & Hk & Hs & _).
  rewrite Hk, Hs.
  split; [apply FieldFacts.map_kind_range | apply FieldFacts.map_status_range].
Qed.

Lemma kind_and_status_ranges_witness :
  exists item,
    build_item (anime [("series_title", "Monster"); ("series_type", "ONA");
                       ("my_status", "Finished?")]) false true = Some item /\
    In (kind item) KINDS /\ In (status item) STATUSES.
Proof.
  eexists. split; [vm_compute; reflexivity|].
  refine (proj2 (proj2 kind_and_status_ranges)
            (anime [("series_title", "Monster"); ("series_type", "ONA");
                    ("my_status", "Finished?")]) false true _ _).
  vm_compute; reflexivity.
Defined.

(** X5: the status and kind mappings see a text only through
    [strip().lower()]: two texts that agree after stripping and lowercasing
    get the same status and the same kind; an empty or blank text counts as
    absent (PLAN, SERIES); and an unrecognised text gives PLAN. *)
Theorem mapping_ignores_case_and_blanks (a b : string) (r : bool) :
  Str.lower (Str.strip a) = Str.lower (Str.strip b) ->
  map_status (Some a) r = map_status (Some b) r /\
  map_kind (Some a) = map_kind (Some b) /\
  (Str.strip a = EmptyString ->
   map_status (Some a) r = map_status None r /\ map_kind (Some a) = map_kind None) /\
  (~ In (Str.lower (Str.strip a)) ["watching"; "completed"; "on-hold"] ->
   map_status (Some a) false = "PLAN").
Proof.
  intros H. split; [|split; [|split]].
  - destruct r; [reflexivity|]. now rewrite !FieldFacts.map_status_norm, H.
  - now rewrite !FieldFacts.map_kind_norm, H.
  - intros He. split.
    + destruct r; [reflexivity|]. rewrite FieldFacts.map_status_norm, He. reflexivity.
    + rewrite FieldFacts.map_kind_norm, He. reflexivity.
  - intros Hn. rewrite FieldFacts.map_status_norm. unfold status_of_norm.
    simpl in Hn.
    destruct (String.eqb_spec (Str.lower (Str.strip a)) "watching") as [E|_];
      [exfalso; apply Hn; rewrite E; tauto|].
    destruct (String.eqb_spec (Str.lower (Str.strip a)) "completed") as [E|_];
      [exfalso; apply Hn; rewrite E; tauto|].
    destruct (String.eqb_spec (Str.lower (Str.strip a)) "on-hold") as [E|_];
      [exfalso; apply Hn; rewrite E; tauto|].
    reflexivity.
Qed.

Lemma mapping_ignores_case_and_blanks_witness :
  map_status (Some "  ON-Hold ") false = map_status (Some "on-hold") false /\
  map_kind (Some "  ON-Hold ") = map_kind (Some "on-hold").
Proof.
  destruct (mapping_ignores_case_and_blanks "  ON-Hold " "on-hold" false)
    as (H1 & H2 & _); [vm_compute; reflexivity|].
  split; assumption.
Defined.

(** X6: the notes of an item are made of at most two fragments, in this
    order: one for the status (On-Hold or Dropped, never both) and one for
    the type (any type but the texts "TV" and "Movie"); they are absent
    exactly when neither applies, and are never the empty text. *)
Theorem notes_shape (anime_el : Element)
    (include_dropped infer_season_flag : bool) (item : Item) :
  build_item anime_el include_dropped infer_season_flag = Some item ->
  notes item
  = match status_fragment (text anime_el "my_status"),
          type_fragment (text anime_el "series_type") with
    | None, None => None
    | Some a, None => Some a
    | None, Some b => Some b
    | Some a, Some b => Some (a +:+ " | " +:+ b)
    end /\
  notes item <> Some EmptyString.
Proof.
  intros H.
  destruct (MapperFacts.build_item_Some _ _ _ _ H) as (_ & _ & _ & _ & Hn & _).
  assert (E : notes item
    = match status_fragment (text anime_el "my_status"),
            type_fragment (text anime_el "series_type") with
      | None, None => None
      | Some a, None => Some a
      | None, Some b => Some b
      | Some a, Some b => Some (a +:+ " | " +:+ b)
      end).
  { rewrite Hn, FieldFacts.notes_parts_fragments.
    - destruct (status_fragment _), (type_fragment _); reflexivity.
    - intros v Hv. now destruct (MapperFacts.text_stripped _ _ _ Hv). }
  split; [exact E|]. rewrite E.
  unfold status_fragment, type_fragment.
  destruct (norm_is (text anime_el "my_status") "on-hold");
    [|destruct (norm_is (text anime_el "my_status") "dropped")];
    (destruct (text anime_el "series_type") as [v|];
     [destruct (is_tv_or_movie v)|]); discriminate.
Qed.

Lemma notes_shape_witness :
  exists item,
    build_item (anime [("series_title", "Monster"); ("series_type", "OVA");
                       ("my_status", "On-Hold")]) false true = Some item /\
    notes item = Some "MAL: On-Hold | MAL type: OVA".
Proof.
  eexists. split; [vm_compute; reflexivity|].
  refine (eq_trans (proj1 (notes_shape
    (anime [("series_title", "Monster"); ("series_type", "OVA");
            ("my_status", "On-Hold")]) false true _ _)) _);
    vm_compute; reflexivity.
Defined.

(** ** The field mapper: what each field of an item holds *)

Module ItemFacts.
Import Str StrFacts MapperFacts.

Lemma mem_lstrip c s : mem c s = false -> mem c (lstrip s) = false.
Proof.
  induction s as [|d s IH]; simpl; [reflexivity|].
  intros H. apply orb_false_elim in H as [Hd Hs].
  destruct (Char.is_space d); [now apply IH|]. simpl. now rewrite Hd, Hs.
Qed.

Lemma mem_rstrip c s : mem c s = false -> mem c (rstrip s) = false.
Proof.
  induction s as [|d s IH]; simpl; [reflexivity|].
  intros H. apply orb_false_elim in H as [Hd Hs]. specialize (IH Hs).
  destruct (rstrip s) as [|a r].
  - destruct (Char.is_space d); simpl; [reflexivity|]. now rewrite Hd.
  - cbn [mem]. cbn [mem] in IH. now rewrite Hd, IH.
Qed.

Lemma mem_strip c s : mem c s = false -> mem c (strip s) = false.
Proof. intros H. unfold strip. now apply mem_rstrip, mem_lstrip. Qed.

(** A tag is a stripped piece of the raw text: not empty, trimmed, without
    a comma, and its own strip. *)
Lemma split_tags_tag raw t :
  In t (split_tags raw) ->
  t <> EmptyString /\ trimmed t /\ sep_free "," t /\ strip t = t.
Proof.
  unfold split_tags. destruct raw as [r|]; [|intros []].
  destruct (is_empty r); [intros []|].
  intros Ht. apply List.filter_In in Ht as [Hin Hne].
  apply List.in_map_iff in Hin as (p & <- & Hp).
  destruct (TagFacts.split_spec "," r) as [_ Hf].
  rewrite List.Forall_forall in Hf.
  repeat split.
  - apply is_empty_false. now destruct (is_empty (strip p)).
  - apply strip_first.
  - apply strip_last.
  - apply mem_strip, Hf, Hp.
  - apply strip_idem.
Qed.

Lemma build_item_fields el d i item :
  build_item el d i = Some item ->
  title item = default EmptyString (text el "series_title") /\
  season item = (if i then infer_season (title item) else None) /\
  rating item = nonzero (score el) /\
  absolute_episode item = None /\ cover_url item = None /\
  banner_key item = None /\ image_url item = None.
Proof.
  unfold build_item.
  destruct (norm_is (text el "my_status") "dropped" && negb d); [discriminate|].
  intros [= <-]. repeat split; reflexivity.
Qed.

End ItemFacts.

(** X7: in an item "absent" is never written as 0 or as an empty text: the
    rating is the score, absent when the score is 0 (a missing or
    unparseable [my_score] counts as 0), so never 0; no tag is empty, and
    every tag is trimmed and holds no comma; the title has no surrounding
    whitespace; and the four reserved fields are always absent. *)
Theorem item_fields_well_formed (anime_el : Element)
    (include_dropped infer_season_flag : bool) (item : Item) :
  build_item anime_el include_dropped infer_season_flag = Some item ->
  rating item = nonzero (score anime_el) /\
  rating item <> Some 0 /\
  Forall (fun t => t <> EmptyString /\ Str.trimmed t /\ Str.sep_free "," t)
         (tags item) /\
  Str.strip (title item) = title item /\
  absolute_episode item = None /\ cover_url item = None /\
  banner_key item = None /\ image_url item = None.
Proof.
  intros H.
  destruct (ItemFacts.build_item_fields _ _ _ _ H)
    as (Ht & _ & Hr & Ha & Hc & Hb & Hi).
  destruct (MapperFacts.build_item_Some _ _ _ _ H) as (_ & _ & _ & _ & _ & Htags).
  split; [exact Hr|]. split; [|split; [|split; [|auto]]].
  - rewrite Hr. unfold nonzero.
    destruct (score anime_el =? 0) eqn:E; [discriminate|].
    intros [= E']. rewrite E' in E. discriminate.
  - rewrite Htags. apply List.Forall_forall. intros t Hin.
    destruct (ItemFacts.split_tags_tag _ _ Hin) as (? & ? & ? & _). auto.
  - rewrite Ht. destruct (text anime_el "series_title") as [v|] eqn:E; [|reflexivity].
    now destruct (MapperFacts.text_stripped _ _ _ E).
Qed.

Lemma item_fields_well_formed_witness :
  exists item,
    build_item (anime [("series_title", "  Monster "); ("my_score", "zero");
                       ("my_tags", " seinen, ,thriller ")]) false true = Some item /\
    title item = "Monster" /\ rating item = None /\
    tags item = ["seinen"; "thriller"] /\
    Forall (fun t => t <> EmptyString /\ Str.trimmed t /\ Str.sep_free "," t)
           (tags item).
Proof.
  eexists. split; [vm_compute; reflexivity|].
  split; [reflexivity|]. split; [vm_compute; reflexivity|].
  split; [vm_compute; reflexivity|].
  refine (proj1 (proj2 (proj2 (item_fields_well_formed
    (anime [("series_title", "  Monster "); ("my_score", "zero");
            ("my_tags", " seinen, ,thriller ")]) false true _ _)))).
  vm_compute; reflexivity.
Defined.

(** X8: [infer_season_flag] touches the season only: with the flag off the
    item is the one built with the flag on, its season taken out; with the
    flag on the season is [infer_season] of the item's title, so it is
    absent for a record without a title and otherwise absent or in 0..99. *)
Theorem infer_season_flag_only_sets_season (anime_el : Element)
    (include_dropped : bool) :
  build_item anime_el include_dropped false
  = without_season <$> build_item anime_el include_dropped true /\
  (forall item, build_item anime_el include_dropped false = Some item ->
     season item = None) /\
  (forall item, build_item anime_el include_dropped true = Some item ->
     season item = infer_season (title item) /\
     (text anime_el "series_title" = None -> season item = None) /\
     (forall n, season item = Some n -> 0 <= n <= 99)).
Proof.
  split; [|split].
  - unfold build_item.
    destruct (norm_is (text anime_el "my_status") "dropped" && negb include_dropped);
      reflexivity.
  - intros item H. now destruct (ItemFacts.build_item_fields _ _ _ _ H) as (_ & -> & _).
  - intros item H.
    destruct (ItemFacts.build_item_fields _ _ _ _ H) as (Ht & Hs & _).
    split; [exact Hs|]. split.
    + intros E. rewrite Hs, Ht, E. reflexivity.
    + intros n Hn. rewrite Hs in Hn. now apply RuleFacts.infer_season_bounds in Hn.
Qed.

Lemma infer_season_flag_only_sets_season_witness :
  let el := anime [("series_title", "Attack on Titan Season 3");
                   ("my_status", "Watching")] in
  exists item item',
    build_item el false true = Some item /\
    build_item el false false = Some item' /\
    season item = Some 3 /\ season item' = None /\
    item' = without_season item.
Proof.
  intros el.
  destruct (build_item el false true) as [item|] eqn:E;
    [|exfalso; revert E; vm_compute; discriminate].
  destruct (infer_season_flag_only_sets_season el false) as (H1 & H2 & H3).
  rewrite E in H1. exists item, (without_season item).
  split; [reflexivity|]. split; [exact H1|].
  split; [|split; [exact (H2 _ H1)|reflexivity]].
  rewrite (proj1 (H3 item E)).
  injection E as <-. vm_compute. reflexivity.
Defined.

(** X9: [include_dropped] decides only whether a dropped record appears:
    with the flag on every record gives an item; with the flag off a dropped
    record gives none and any other record gives the same item as with the
    flag on. *)
Theorem include_dropped_only_filters (anime_el : Element) (infer_season_flag : bool) :
  (exists item, build_item anime_el true infer_season_flag = Some item) /\
  (is_dropped anime_el = true ->
   build_item anime_el false infer_season_flag = None) /\
  (is_dropped anime_el = false ->
   build_item anime_el false infer_season_flag
   = build_item anime_el true infer_season_flag).
Proof.
  unfold is_dropped. split; [|split].
  - destruct (build_item anime_el true infer_season_flag) as [item|] eqn:E; [eauto|].
    apply MapperFacts.build_item_None in E. rewrite andb_false_r in E. discriminate.
  - intros H. apply MapperFacts.build_item_None. now rewrite H.
  - intros H. unfold build_item. now rewrite H.
Qed.

Lemma include_dropped_only_filters_witness :
  let el := anime [("series_title", "Monster"); ("my_status", " dropped ")] in
  is_dropped el = true /\ build_item el false true = None.
Proof.
  intros el.
  assert (H : is_dropped el = true) by (vm_compute; reflexivity).
  split; [exact H|].
  exact (proj1 (proj2 (include_dropped_only_filters el true)) H).
Defined.

Module CountFacts.

Lemma omap_cons {A B} (f : A -> option B) (a : A) (l : list A) :
  omap f (a :: l)
  = match f a with Some b => b :: omap f l | None => omap f l end.
Proof. reflexivity. Qed.

Lemma omap_all_Some {A B} (f : A -> option B) (l : list A) :
  (forall a, exists b, f a = Some b) -> length (omap f l) = length l.
Proof.
  intros H. induction l as [|a l IH]; [reflexivity|].
  rewrite omap_cons. destruct (H a) as [b ->].
  cbn [length]. now rewrite IH.
Qed.

Lemma omap_ext_list {A B} (f g : A -> option B) (l : list A) :
  (forall a, f a = g a) -> omap f l = omap g l.
Proof.
  intros H. induction l as [|a l IH]; [reflexivity|].
  now rewrite !omap_cons, H, IH.
Qed.

Lemma omap_if_length {A B} (p : A -> bool) (f : A -> option B) (l : list A) :
  (forall a, exists b, f a = Some b) ->
  length (omap (fun a => if p a then None else f a) l)
  = length (List.filter (fun a => negb (p a)) l).
Proof.
  intros H. induction l as [|a l IH]; [reflexivity|].
  rewrite omap_cons. cbn [List.filter].
  destruct (p a); cbn [negb]; [exact IH|].
  destruct (H a) as [b ->]. cbn [length]. now rewrite IH.
Qed.

End CountFacts.

(** X10: with dropped records included the output has one item for every
    [anime] child of the root; with them excluded it is the same items
    without those of the dropped records, so its length is the number of
    records that are not dropped. *)
Theorem output_length (root : Element) (infer_season_flag : bool) :
  let records := findall root "anime" in
  length (collect_items root true infer_season_flag) = length records /\
  collect_items root false infer_season_flag
  = omap (fun a => if is_dropped a then None
                   else build_item a true infer_season_flag) records /\
  length (collect_items root false infer_season_flag)
  = length (List.filter (fun a => negb (is_dropped a)) records).
Proof.
  intros records. rewrite !BatchFacts.collect_items_omap. fold records.
  assert (Hall : forall a, exists b, build_item a true infer_season_flag = Some b).
  { intros a. unfold build_item. rewrite andb_false_r. eauto. }
  assert (Heq : omap (fun a => build_item a false infer_season_flag) records
              = omap (fun a => if is_dropped a then None
                               else build_item a true infer_season_flag) records).
  { apply CountFacts.omap_ext_list. intros a. unfold is_dropped, build_item.
    destruct (norm_is (text a "my_status") "dropped"); reflexivity. }
  split; [now apply CountFacts.omap_all_Some|].
  split; [exact Heq|].
  rewrite Heq. now apply CountFacts.omap_if_length.
Qed.

Module TextFacts.

Lemma find_first el tag c :
  find el tag = Some c ->
  exists pre post,
    el_children el = pre ++ c :: post /\ el_tag c = tag /\
    Forall (fun x => el_tag x <> tag) pre.
Proof.
  unfold find. induction (el_children el) as [|x l IH]; simpl; [discriminate|].
  destruct (String.eqb_spec (el_tag x) tag) as [E|E].
  - intros [= <-]. exists [], l. repeat split; auto.
  - intros H. destruct (IH H) as (pre & post & -> & Ht & Hp).
    exists (x :: pre), post. repeat split; auto.
Qed.

Lemma find_None el tag :
  find el tag = None <-> Forall (fun x => el_tag x <> tag) (el_children el).
Proof.
  unfold find. induction (el_children el) as [|x l IH]; simpl.
  - split; [constructor|reflexivity].
  - destruct (String.eqb_spec (el_tag x) tag) as [E|E]; split.
    + discriminate.
    + intros H. inversion H; subst. congruence.
    + intros H. constructor; [exact E|]. now apply IH.
    + intros H. inversion H; subst. now apply IH.
Qed.

End TextFacts.

(** X11: [text(el, tag)] is absent when [el] has no child with that tag, or
    when the first such child has no text or only whitespace; otherwise it
    is the stripped text of the first such child (later children with the
    same tag are not looked at), which is not empty and has no surrounding
    whitespace. *)
Theorem text_cases (el : Element) (tag : string) :
  (text el tag = None <->
   Forall (fun x => el_tag x <> tag) (el_children el) \/
   exists c, find el tag = Some c /\
             Str.strip (default EmptyString (el_text c)) = EmptyString) /\
  (forall v, text el tag = Some v ->
     v <> EmptyString /\ Str.trimmed v /\ Str.strip v = v /\
     exists c pre post,
       el_children el = pre ++ c :: post /\ el_tag c = tag /\
       Forall (fun x => el_tag x <> tag) pre /\
       v = Str.strip (default EmptyString (el_text c))).
Proof.
  split.
  - unfold text, findtext. destruct (find el tag) as [c|] eqn:E.
    + destruct (Str.is_empty (Str.strip (default EmptyString (el_text c)))) eqn:Ee; split.
      * intros _. right. exists c. split; [reflexivity|].
        now apply StrFacts.is_empty_true.
      * reflexivity.
      * discriminate.
      * intros [H|(c' & [= <-] & H)].
        -- apply TextFacts.find_None in H. congruence.
        -- rewrite H in Ee. discriminate.
    + split; [|reflexivity]. intros _. left. now apply TextFacts.find_None.
  - intros v H. destruct (MapperFacts.text_stripped _ _ _ H) as [Hs He].
    split; [now apply StrFacts.is_empty_false|].
    split; [rewrite <- Hs; apply TagFacts.strip_trimmed|]. split; [exact Hs|].
    unfold text, findtext in H. destruct (find el tag) as [c|] eqn:E; [|discriminate].
    destruct (Str.is_empty _); [discriminate|]. injection H as <-.
    destruct (TextFacts.find_first _ _ _ E) as (pre & post & Hc & Ht & Hp).
    exists c, pre, post. auto.
Qed.

Lemma text_cases_witness :
  let el := Elem "anime" None
              [Elem "my_score" (Some " 7 ") []; Elem "my_score" (Some "9") [];
               Elem "my_tags" None []] in
  text el "my_score" = Some "7" /\ text el "my_tags" = None /\
  "7" <> EmptyString /\ Str.strip "7" = "7".
Proof.
  intros el.
  assert (H : text el "my_score" = Some "7") by (vm_compute; reflexivity).
  split; [exact H|]. split; [vm_compute; reflexivity|].
  destruct (proj2 (text_cases el "my_score") "7" H) as (H1 & _ & H3 & _).
  split; assumption.
Defined.

(** X12: [build_item] sees a record only through [text] of eight child
    tags: two records that agree on them give the same result, whatever
    else they hold (other children such as [series_animedb_id], the order
    of the children, repeated children, surrounding whitespace). *)
Theorem build_item_depends_on_used_tags (a b : Element)
    (include_dropped infer_season_flag : bool) :
  (forall tag, In tag USED_TAGS -> text a tag = text b tag) ->
  build_item a include_dropped infer_season_flag
  = build_item b include_dropped infer_season_flag.
Proof.
  intros H. unfold build_item, is_rewatching, rewatch_ep, watched_eps, score.
  rewrite !(H _) by (simpl; tauto). reflexivity.
Qed.

Lemma build_item_depends_on_used_tags_witness :
  build_item (anime [("series_animedb_id", "19"); ("my_status", "Watching");
                     ("series_title", " Monster ")]) false true
  = build_item (anime [("series_title", "Monster"); ("my_status", "Watching");
                       ("my_status", "Dropped")]) false true.
Proof.
  apply build_item_depends_on_used_tags.
  intros tag Hin. simpl in Hin.
  repeat (destruct Hin as [<-|Hin]; [vm_compute; reflexivity|]). destruct Hin.
Defined.

(** ** Tags: joining and splitting again *)

Module RoundTrip.
Import Str StrFacts.

Lemma split_at_sep_free sep p : mem sep p = false -> split_at sep p = (p, []).
Proof.
  induction p as [|c p IH]; simpl; [reflexivity|].
  intros H. apply orb_false_elim in H as [Hc Hp]. now rewrite (IH Hp), Hc.
Qed.

Lemma split_at_append sep p s :
  mem sep p = false ->
  split_at sep (p +:+ String sep s)
  = (p, fst (split_at sep s) :: snd (split_at sep s)).
Proof.
  induction p as [|c p IH]; simpl.
  - intros _. destruct (split_at sep s) as [q qs]. unfold Char.eqb.
    now rewrite Ascii.eqb_refl.
  - intros H. apply orb_false_elim in H as [Hc Hp]. now rewrite (IH Hp), Hc.
Qed.

(** Splitting the join of comma-free pieces gives the pieces back. *)
Lemma split_join sep t ts :
  Forall (sep_free sep) (t :: ts) ->
  split sep (join (String sep EmptyString) (t :: ts)) = t :: ts.
Proof.
  revert t. induction ts as [|u us IH]; intros t H; inversion H as [|? ? Ht Hts]; subst.
  - unfold split. simpl. now rewrite (split_at_sep_free _ _ Ht).
  - rewrite TagFacts.join_cons'.
    change (String sep EmptyString +:+ join (String sep EmptyString) (u :: us))
      with (String sep (join (String sep EmptyString) (u :: us))).
    unfold split. rewrite (split_at_append _ _ _ Ht).
    specialize (IH u Hts). unfold split in IH.
    destruct (split_at sep (join (String sep EmptyString) (u :: us))) as [q qs].
    simpl. now rewrite IH.
Qed.

Lemma join_not_empty sep t ts :
  t <> EmptyString -> is_empty (join sep (t :: ts)) = false.
Proof.
  intros H. rewrite TagFacts.join_cons'. destruct t; [congruence|reflexivity].
Qed.

Lemma map_id_on {A} (f : A -> A) (l : list A) :
  Forall (fun x => f x = x) l -> map f l = l.
Proof. induction 1; simpl; congruence. Qed.

Lemma filter_all {A} (p : A -> bool) (l : list A) :
  Forall (fun x => p x = true) l -> List.filter p l = l.
Proof.
  induction 1 as [|x l Hx _ IH]; simpl; [reflexivity|]. now rewrite Hx, IH.
Qed.

End RoundTrip.

(** X13: the tags are a normal form: joining the tags of a raw text with
    commas and splitting the result again gives the same tags. *)
Theorem split_tags_join_round_trip (raw : option string) :
  split_tags (Some (Str.join "," (split_tags raw))) = split_tags raw.
Proof.
  assert (Htag : forall t, In t (split_tags raw) ->
            t <> EmptyString /\ Str.trimmed t /\ Str.sep_free "," t /\ Str.strip t = t)
    by (intros t; apply ItemFacts.split_tags_tag).
  destruct (split_tags raw) as [|t ts]; [reflexivity|].
  unfold split_tags.
  rewrite RoundTrip.join_not_empty by (apply (Htag t); now left).
  rewrite RoundTrip.split_join.
  - rewrite RoundTrip.map_id_on.
    + apply RoundTrip.filter_all. apply List.Forall_forall. intros x Hx.
      destruct (Htag x Hx) as (Hne & _). now destruct x.
    + apply List.Forall_forall. intros x Hx. now destruct (Htag x Hx) as (_ & _ & _ & ?).
  - apply List.Forall_forall. intros x Hx. now destruct (Htag x Hx) as (_ & _ & ? & _).
Qed.

(** ** The orchestrator and the command line: effects on the file system *)

Module EffectFacts.

Lemma mkdir_from_frame rest : forall base fs fs' o,
  mkdir_from base rest fs = (fs', o) ->
  files fs' = files fs /\ dirs fs ⊆ dirs fs'.
Proof.
  induction rest as [|c rest IH]; intros base fs fs' o; simpl.
  - intros [= <- _]. split; [reflexivity|set_solver].
  - destruct (is_dir fs (base ++ [c])); [apply IH|].
    destruct (is_file fs (base ++ [c])).
    + intros [= <- _]. split; [reflexivity|set_solver].
    + intros H. destruct (IH _ _ _ _ H) as [Hf Hd]. simpl in Hf, Hd.
      split; [exact Hf|]. etrans; [|exact Hd]. apply union_subseteq_r.
Qed.

Lemma is_dir_mono fs fs' p :
  dirs fs ⊆ dirs fs' -> is_dir fs p = true -> is_dir fs' p = true.
Proof.
  unfold is_dir. intros Hd H. apply orb_true_iff in H as [H|H].
  - rewrite H. reflexivity.
  - apply orb_true_iff. right. apply bool_decide_eq_true.
    apply bool_decide_eq_true in H. set_solver.
Qed.

Lemma write_text_cases p content fs fs' o :
  write_text p content fs = (fs', o) ->
  (exists e, o = Raise e /\ fs' = fs) \/
  (o = Ok tt /\ files fs' = <[p := content]> (files fs) /\ dirs fs' = dirs fs /\
   is_dir fs (parent p) = true /\ is_dir fs p = false).
Proof.
  unfold write_text. destruct (is_dir fs p) eqn:Ed.
  - intros [= <- <-]. left. eauto.
  - destruct (is_dir fs (parent p)) eqn:Ep; simpl.
    + intros [= <- <-]. right. auto.
    + intros [= <- <-]. left. eauto.
Qed.

Section Run.
Variable xml_parse : string -> option Element.
Variable json_dump : list Item -> string.

Lemma ET_parse_state input_path fs fs' o :
  ET_parse xml_parse input_path fs = (fs', o) -> fs' = fs.
Proof.
  unfold ET_parse. destruct (is_dir fs input_path); [congruence|].
  destruct (files fs !! input_path) as [content|]; [|congruence].
  destruct (xml_parse content); congruence.
Qed.

Lemma convert_failure input_path output_path d i fs fs' e :
  convert_mal_xml_to_app_json xml_parse json_dump input_path output_path d i fs
  = (fs', Raise e) ->
  files fs' = files fs /\ dirs fs ⊆ dirs fs'.
Proof.
  rewrite BatchFacts.convert_steps.
  destruct (ET_parse xml_parse input_path fs) as [fs0 [root|e0]] eqn:Ep;
    pose proof (ET_parse_state _ _ _ _ Ep) as ->.
  2:{ intros [= <- _]. split; [reflexivity|set_solver]. }
  destruct (mkdir_parents (parent output_path) fs) as [fs1 [[]|e1]] eqn:Em;
    apply mkdir_from_frame in Em as [Hf Hd].
  2:{ intros [= <- _]. auto. }
  destruct (write_text output_path _ fs1) as [fs2 [[]|e2]] eqn:Ew; [discriminate|].
  intros [= <- _].
  apply write_text_cases in Ew as [(e' & _ & ->)|(Ho & _)]; [auto|discriminate].
Qed.

Lemma convert_success input_path output_path d i fs fs' items :
  convert_mal_xml_to_app_json xml_parse json_dump input_path output_path d i fs
  = (fs', Ok items) ->
  exists root,
    ET_parse xml_parse input_path fs = (fs, Ok root) /\
    items = collect_items root d i /\
    files fs' = <[output_path := json_dump items]> (files fs) /\
    dirs fs ⊆ dirs fs' /\
    is_dir fs' (parent output_path) = true /\
    is_dir fs' output_path = false.
Proof.
  rewrite BatchFacts.convert_steps.
  destruct (ET_parse xml_parse input_path fs) as [fs0 [root|e0]] eqn:Ep;
    pose proof (ET_parse_state _ _ _ _ Ep) as ->; [|discriminate].
  destruct (mkdir_parents (parent output_path) fs) as [fs1 [[]|e1]] eqn:Em;
    [|discriminate].
  apply mkdir_from_frame in Em as [Hf Hd].
  destruct (write_text output_path _ fs1) as [fs2 [[]|e2]] eqn:Ew; [|discriminate].
  intros [= <- <-].
  apply write_text_cases in Ew as [(e' & He & _)|(_ & Hf2 & Hd2 & Hp & Hn)];
    [discriminate|].
  exists root. split; [reflexivity|]. split; [reflexivity|].
  rewrite Hf2, Hf, Hd2. repeat split; auto.
  - unfold is_dir in *. now rewrite Hd2.
  - unfold is_dir in *. now rewrite Hd2.
Qed.
End Run.

End EffectFacts.

(** X14: a run that fails, at whatever step (parsing, creating the
    directory, opening the output), leaves every file as it was: no file is
    created, truncated or changed; directories may have been created but
    none is removed. *)
Theorem failed_run_changes_no_file
    (xml_parse : string -> option Element) (json_dump : list Item -> string)
    (input_path output_path : list string)
    (include_dropped infer_season_flag : bool) (fs fs' : FS) (e : exn) :
  convert_mal_xml_to_app_json xml_parse json_dump input_path output_path
    include_dropped infer_season_flag fs = (fs', Raise e) ->
  files fs' = files fs /\ dirs fs ⊆ dirs fs'.
Proof. apply EffectFacts.convert_failure. Qed.

(** X15: a run that succeeds has parsed the input, returns the items of its
    records, and changes exactly one file: the output file, which then holds
    the serialization of the returned items; the directory of the output
    file exists afterwards and no directory is removed. *)
Theorem successful_run_writes_one_file
    (xml_parse : string -> option Element) (json_dump : list Item -> string)
    (input_path output_path : list string)
    (include_dropped infer_season_flag : bool) (fs fs' : FS) (items : list Item) :
  convert_mal_xml_to_app_json xml_parse json_dump input_path output_path
    include_dropped infer_season_flag fs = (fs', Ok items) ->
  (exists root,
     ET_parse xml_parse input_path fs = (fs, Ok root) /\
     items = collect_items root include_dropped infer_season_flag) /\
  files fs' !! output_path = Some (json_dump items) /\
  (forall p, p <> output_path -> files fs' !! p = files fs !! p) /\
  dirs fs ⊆ dirs fs' /\
  is_dir fs' (parent output_path) = true.
Proof.
  intros H.
  destruct (EffectFacts.convert_success _ _ _ _ _ _ _ _ _ H)
    as (root & Hp & Hi & Hf & Hd & Hpar & _).
  split; [eauto|]. rewrite Hf.
  split; [apply lookup_insert_eq|].
  split; [|auto]. intros p Hne. now apply lookup_insert_ne.
Qed.

Lemma failed_run_changes_no_file_witness :
  let parse := fun _ : string => Some sample_root in
  let dump := fun items : list Item => Str.join "," (map title items) in
  exists fs' e,
    convert_mal_xml_to_app_json parse dump ["export"; "mal.xml"] ["export"]
      false true sample_fs = (fs', Raise e) /\
    files fs' = files sample_fs /\ dirs sample_fs ⊆ dirs fs'.
Proof.
  intros parse dump.
  destruct (convert_mal_xml_to_app_json parse dump ["export"; "mal.xml"] ["export"]
              false true sample_fs) as [fs' [out|e]] eqn:E.
  - exfalso. revert E. vm_compute. discriminate.
  - exists fs', e. split; [reflexivity|].
    exact (failed_run_changes_no_file parse dump ["export"; "mal.xml"] ["export"]
             false true sample_fs fs' e E).
Defined.

Lemma successful_run_writes_one_file_witness :
  let parse := fun _ : string => Some sample_root in
  let dump := fun items : list Item => Str.join "," (map title items) in
  exists fs' items,
    convert_mal_xml_to_app_json parse dump ["export"; "mal.xml"] ["out"; "list.json"]
      true true sample_fs = (fs', Ok items) /\
    files fs' !! ["out"; "list.json"] = Some (dump items) /\
    files fs' !! ["export"; "mal.xml"] = files sample_fs !! ["export"; "mal.xml"] /\
    is_dir fs' ["out"] = true.
Proof.
  intros parse dump.
  destruct (convert_mal_xml_to_app_json parse dump ["export"; "mal.xml"]
              ["out"; "list.json"] true true sample_fs) as [fs' [items|e]] eqn:E.
  - exists fs', items. split; [reflexivity|].
    destruct (successful_run_writes_one_file parse dump ["export"; "mal.xml"]
                ["out"; "list.json"] true true sample_fs fs' items E)
      as (_ & Hw & Ho & _ & Hp).
    split; [exact Hw|]. split; [apply Ho; discriminate | exact Hp].
  - exfalso. revert E. vm_compute. discriminate.
Defined.

Module MainFacts.



End MainFacts.



(** A title for rule 6: nothing for rules 1 to 5, then a number of one
    digit at the end. *)
Lemma rule6_small_trailing_integer_witness :
  exists n, Str.to_int "3" = Some n /\
    infer_season ("One Punch Man " +:+ "3")
    = if (1 <=? n) && (n <=? 10) then Some n else None.
Proof.
  apply (rule6_small_trailing_integer "One Punch Man " "3").
  - intros c H. vm_compute in H. injection H as <-. reflexivity.
  - vm_compute. repeat split; auto.
  - intros p Hin. simpl in Hin.
    repeat (destruct Hin as [<-|Hin]; [vm_compute; reflexivity|]). destruct Hin.
  - vm_compute. reflexivity.
Defined.
